(** * A shallow embedding of heapusage's logger, [src/hulog.cpp]

    The logger records every allocation and deallocation of the monitored
    process in a table keyed by pointer, keeps running counters, and at
    exit groups the remaining (leaked) allocations by call stack and writes
    a JSON report.

    Modelling choices:
    - pointers and code addresses are non-negative [Z];
    - [unsigned long long] counters are [Z] reduced modulo 2^64 ([ull]);
      the [size_t] size of an allocation is stored in the record's
      [ssize_t] field through [to_ssize];
    - [std::map] is a stdpp [gmap]; where the source iterates over a map,
      the iteration is in key order ([merge_sort] on the keys);
    - the platform ([dladdr], [__cxa_demangle], [fopen]) is an oracle
      record [platform]; [backtrace] receives the real call stack of the
      call as an input and keeps its first [MAX_CALL_STACK] frames;
    - the allocator calls made by the logger's own bookkeeping (while it
      captures a stack, grows a map or writes a file) are the [nested]
      calls of a [log_call] node: they reach [log_event] again while the
      outer call is in progress;
    - the mutexes serialise whole calls, so a call runs to completion
      before the next top-level call; the model is sequential;
    - a call with undefined behaviour in C (here only [fopen] with a null
      path) returns [None];
    - the output file is the list of items appended to it: text written
      with [fprintf] and the JSON document of the summary. *)

From Stdlib Require Import ZArith String Ascii.
From stdpp Require Import base gmap list strings sorting.

Local Open Scope Z_scope.
#[local] Set Warnings "-register-all".

(** ** Machine integers *)

Definition MAX_CALL_STACK : nat := 20.

(** [unsigned long long] arithmetic wraps modulo 2^64. *)
Definition ULL_MOD : Z := 2 ^ 64.
Definition ull (z : Z) : Z := z mod ULL_MOD.

(** Conversion of a [size_t] to the [ssize_t] field [size]
    (two's complement). *)
Definition to_ssize (s : Z) : Z :=
  let u := s mod 2 ^ 64 in if u <? 2 ^ 63 then u else u - 2 ^ 64.

(** ** Data *)

(** [hu_allocinfo_t]; [callstack] holds the [callstack_depth] frames that
    [backtrace] filled in. *)
Record hu_allocinfo := mk_allocinfo {
  ptr : Z;
  size : Z;
  callstack : list Z;
  callstack_depth : Z;
  count : Z
}.

(** The two events of [hulog.h] that [log_event] distinguishes. *)
Inductive hu_event := EVENT_MALLOC | EVENT_FREE.

(** One call [log_event(event, ptr, size)]: [stack] is the call stack
    [backtrace] sees, [nested] the allocator calls that the bookkeeping of
    this call makes, in order. *)
Inductive hu_call :=
  log_call (event : hu_event) (p : Z) (s : Z) (stack : list Z)
           (nested : list hu_call).

(** The platform functions the logger calls. *)
Record platform := mk_platform {
  (** [dladdr(addr)] succeeded with a [dli_fname]: its [basename] *)
  dladdr_fname : Z -> option string;
  (** [dladdr(addr)] succeeded with a [dli_sname]: [(dli_sname, dli_saddr)] *)
  dladdr_sym : Z -> option (string * Z);
  (** [abi::__cxa_demangle] returned a string with status 0 *)
  cxa_demangle : string -> option string;
  (** [fopen(path, mode)] returns a non-null [FILE *] *)
  fopen_ok : string -> bool
}.

(** The JSON document written by [log_summary]. *)
Record leak_obj := mk_leak {
  leak_bytes : Z;
  leak_blocks : Z;
  (** ["trace"]: [(address, location)] pairs; absent for an empty stack *)
  leak_trace : option (list (Z * string))
}.

Record report := mk_report {
  lost_bytes : Z;
  lost_blocks : Z;
  runtime_allocs : Z;
  runtime_frees : Z;
  runtime_bytes : Z;
  report_pid : Z;
  leaks : list leak_obj
}.

Inductive out_item :=
  | OutText (t : string)
  | OutJson (j : report).

(** The file globals set by [log_init]. *)
Record hu_config := mk_config {
  hu_log_file : option string;
  hu_log_free : bool;
  hu_log_nosyms : bool;
  hu_log_minleak : Z;
  pid : Z
}.

Record hu_counters := mk_counters {
  allocinfo_total_frees : Z;
  allocinfo_total_allocs : Z;
  allocinfo_total_alloc_bytes : Z;
  allocinfo_current_alloc_bytes : Z;
  allocinfo_peak_alloc_bytes : Z
}.

(** All mutable globals; [allocations_by_callstack] is the [static] map
    of [log_summary]; [out_file] is the content of the [HU_FILE] file. *)
Record hu_state := mk_state {
  cfg : hu_config;
  logging_enabled : Z;
  callcount : Z;
  ctr : hu_counters;
  allocations : gmap Z hu_allocinfo;
  symbol_cache : gmap Z string;
  objfile_cache : gmap Z string;
  allocations_by_callstack : gmap (list Z) hu_allocinfo;
  out_file : list out_item
}.

Definition set_callcount (n : Z) (st : hu_state) : hu_state :=
  mk_state (cfg st) (logging_enabled st) n (ctr st) (allocations st)
    (symbol_cache st) (objfile_cache st) (allocations_by_callstack st)
    (out_file st).

Definition set_logging_enabled (n : Z) (st : hu_state) : hu_state :=
  mk_state (cfg st) n (callcount st) (ctr st) (allocations st)
    (symbol_cache st) (objfile_cache st) (allocations_by_callstack st)
    (out_file st).

Definition set_ctr (c : hu_counters) (st : hu_state) : hu_state :=
  mk_state (cfg st) (logging_enabled st) (callcount st) c (allocations st)
    (symbol_cache st) (objfile_cache st) (allocations_by_callstack st)
    (out_file st).

Definition set_allocations (m : gmap Z hu_allocinfo) (st : hu_state) : hu_state :=
  mk_state (cfg st) (logging_enabled st) (callcount st) (ctr st) m
    (symbol_cache st) (objfile_cache st) (allocations_by_callstack st)
    (out_file st).

Definition set_objfile_cache (oc : gmap Z string) (st : hu_state) : hu_state :=
  mk_state (cfg st) (logging_enabled st) (callcount st) (ctr st)
    (allocations st) (symbol_cache st) oc (allocations_by_callstack st)
    (out_file st).

Definition append_out (o : list out_item) (st : hu_state) : hu_state :=
  mk_state (cfg st) (logging_enabled st) (callcount st) (ctr st)
    (allocations st) (symbol_cache st) (objfile_cache st)
    (allocations_by_callstack st) (out_file st ++ o).

(** A one-character string holding a newline. *)
Definition nl : string := String (ascii_of_nat 10) EmptyString.

(** ** [std::to_string] of a [long] and [strtoll(s, NULL, 10)] *)

Definition digit_char (d : Z) : ascii := ascii_of_nat (48 + Z.to_nat d).

Fixpoint dec_digits (fuel : nat) (n : Z) (acc : string) : string :=
  match fuel with
  | O => acc
  | S f =>
      let acc' := String (digit_char (n mod 10)) acc in
      if n <? 10 then acc' else dec_digits f (n / 10) acc'
  end.

Definition std_to_string (z : Z) : string :=
  if z <? 0 then String "-" (dec_digits 64 (- z) EmptyString)
  else dec_digits 64 z EmptyString.

Definition LLONG_MAX : Z := 2 ^ 63 - 1.
Definition LLONG_MIN : Z := - 2 ^ 63.

Definition is_space (c : ascii) : bool :=
  let n := nat_of_ascii c in (n =? 32)%nat || ((9 <=? n)%nat && (n <=? 13)%nat).

Definition digit_value (c : ascii) : option Z :=
  let n := nat_of_ascii c in
  if ((48 <=? n)%nat && (n <=? 57)%nat) then Some (Z.of_nat n - 48) else None.

Fixpoint skip_space (s : string) : string :=
  match s with
  | String c s' => if is_space c then skip_space s' else s
  | EmptyString => s
  end.

Fixpoint read_digits (s : string) (acc : Z) : Z :=
  match s with
  | String c s' =>
      match digit_value c with Some d => read_digits s' (acc * 10 + d) | None => acc end
  | EmptyString => acc
  end.

(** [strtoll] saturates at [LLONG_MIN] and [LLONG_MAX]. *)
Definition strtoll (s : string) : Z :=
  let s := skip_space s in
  let v := match s with
           | String "-" s' => - read_digits s' 0
           | String "+" s' => read_digits s' 0
           | _ => read_digits s 0
           end in
  Z.max LLONG_MIN (Z.min LLONG_MAX v).

(** ** [log_init] and [log_enable] *)

(** The environment variables [HU_FILE], [HU_FREE], [HU_NOSYMS],
    [HU_MINLEAK] and the result of [getpid()]. *)
Record hu_env := mk_env {
  env_HU_FILE : option string;
  env_HU_FREE : option string;
  env_HU_NOSYMS : option string;
  env_HU_MINLEAK : option string;
  env_pid : Z
}.

Definition is_one (v : option string) : bool :=
  match v with Some s => String.eqb s "1" | None => false end.

(** The state after [log_init], with the lines written to [stderr]. The
    [FILE *] opened for writing truncates the file and is never closed. *)
Definition log_init (P : platform) (e : hu_env) : hu_state * list string :=
  let c := mk_config (env_HU_FILE e) (is_one (env_HU_FREE e))
             (is_one (env_HU_NOSYMS e))
             (match env_HU_MINLEAK e with Some s => strtoll s | None => 0 end)
             (env_pid e) in
  let err := match env_HU_FILE e with
             | Some f =>
                 if fopen_ok P f then []
                 else [("heapusage error: unable to open output file (" ++ f ++
                        ") for writing" ++ nl)%string]
             | None => [("heapusage error: no output file specified" ++ nl)%string]
             end in
  (mk_state c 0 0 (mk_counters 0 0 0 0 0) ∅ ∅ ∅ ∅ [], err).

Definition log_enable (flag : Z) (st : hu_state) : hu_state :=
  set_logging_enabled flag st.

(** ** [log_is_valid_callstack] *)

(** The loop [while (i > 0)] from index [i] down to 1; [objfile] is the
    variable declared before the loop. The third component lists the
    addresses passed to [dladdr], in order. *)
Fixpoint valid_walk (P : platform) (cs : list Z) (i : nat) (objfile : string)
    (oc : gmap Z string) (qs : list Z) : string * gmap Z string * list Z :=
  match i with
  | O => (objfile, oc, qs)
  | S j =>
      let addr := default 0 (cs !! i) in
      let '(objfile1, oc1, qs1) :=
        match oc !! addr with
        | Some f => (f, oc, qs)
        | None =>
            match dladdr_fname P addr with
            | Some f => (f, <[addr:=f]> oc, qs ++ [addr])
            | None => (objfile, oc, qs ++ [addr])
            end
        end in
      if negb (String.eqb objfile1 "") then (objfile1, oc1, qs1)
      else valid_walk P cs j objfile1 oc1 qs1
  end.

Definition log_is_valid_callstack (P : platform) (oc : gmap Z string)
    (callstack_depth : Z) (callstack : list Z) (is_alloc : bool)
    : bool * gmap Z string * list Z :=
  let '(objfile, oc', qs) :=
    valid_walk P callstack (Z.to_nat (callstack_depth - 1)) "" oc [] in
  if negb (String.eqb objfile "") && negb is_alloc &&
     String.eqb objfile "libobjc.A.dylib"
  then (false, oc', qs) else (true, oc', qs).

(** ** [log_event] *)

(** [backtrace(buf, MAX_CALL_STACK)] *)
Definition backtrace (stack : list Z) : list Z := take MAX_CALL_STACK stack.

(** Entry: under [callcount_lock], take the counter if it is 0. Returns
    [in_recursion]. *)
Definition log_event_enter (st : hu_state) : bool * hu_state :=
  if callcount st =? 0 then (false, set_callcount (callcount st + 1) st)
  else (true, st).

(** Exit of the call that took the counter. *)
Definition log_event_exit (st : hu_state) : hu_state :=
  set_callcount (callcount st - 1) st.

Definition invalid_dealloc_text : list out_item :=
  [OutText (" Invalid deallocation at:" ++ nl)%string; OutText nl].

(** The bookkeeping of [log_event] ([if (!in_recursion) { ... }]). *)
Definition log_event_body (P : platform) (ev : hu_event) (p s : Z)
    (stack : list Z) (st : hu_state) : option hu_state :=
  let c := ctr st in
  match ev with
  | EVENT_MALLOC =>
      let cs := backtrace stack in
      let allocinfo := mk_allocinfo p (to_ssize s) cs (Z.of_nat (length cs)) 1 in
      let cur := ull (allocinfo_current_alloc_bytes c + s) in
      let c' := mk_counters (allocinfo_total_frees c)
                  (ull (allocinfo_total_allocs c + 1))
                  (ull (allocinfo_total_alloc_bytes c + s))
                  cur
                  (if allocinfo_peak_alloc_bytes c <? cur then cur
                   else allocinfo_peak_alloc_bytes c) in
      Some (set_ctr c' (set_allocations (<[p:=allocinfo]> (allocations st)) st))
  | EVENT_FREE =>
      st1 ← match allocations st !! p with
            | Some a =>
                let c' := mk_counters (allocinfo_total_frees c)
                            (allocinfo_total_allocs c)
                            (allocinfo_total_alloc_bytes c)
                            (ull (allocinfo_current_alloc_bytes c - size a))
                            (allocinfo_peak_alloc_bytes c) in
                Some (set_allocations (delete p (allocations st)) (set_ctr c' st))
            | None =>
                if hu_log_free (cfg st) then
                  let cs := backtrace stack in
                  let '(valid, oc, _) :=
                    log_is_valid_callstack P (objfile_cache st)
                      (Z.of_nat (length cs)) cs false in
                  let st' := set_objfile_cache oc st in
                  if valid then
                    match hu_log_file (cfg st) with
                    | None => None  (* fopen(NULL, "a") *)
                    | Some path =>
                        if fopen_ok P path then Some (append_out invalid_dealloc_text st')
                        else Some st'
                    end
                  else Some st'
                else Some st
            end;
      let c1 := ctr st1 in
      Some (set_ctr (mk_counters (ull (allocinfo_total_frees c1 + 1))
                      (allocinfo_total_allocs c1) (allocinfo_total_alloc_bytes c1)
                      (allocinfo_current_alloc_bytes c1) (allocinfo_peak_alloc_bytes c1))
              st1)
  end.

(** [log_event]: the [nested] calls run during the bookkeeping, while the
    counter is taken. *)
Fixpoint log_event (P : platform) (c : hu_call) (st : hu_state) {struct c}
    : option hu_state :=
  match c with
  | log_call ev p s stack nested =>
      if logging_enabled st =? 0 then Some st else
      let '(in_recursion, st1) := log_event_enter st in
      if in_recursion then Some st1 else
      st2 ← (fix run (l : list hu_call) (st : hu_state) : option hu_state :=
               match l with
               | [] => Some st
               | c' :: l' => st' ← log_event P c' st; run l' st'
               end) nested st1;
      st3 ← log_event_body P ev p s stack st2;
      Some (log_event_exit st3)
  end.

(** A sequence of calls, each one run to completion. *)
Fixpoint log_events (P : platform) (cs : list hu_call) (st : hu_state)
    : option hu_state :=
  match cs with
  | [] => Some st
  | c :: cs' => st' ← log_event P c st; log_events P cs' st'
  end.

(** ** [addr_to_symbol] and [log_print_callstack] *)

Definition starts_with_underscore (s : string) : bool :=
  match s with String c _ => Ascii.eqb c "_" | EmptyString => false end.

(** Returns the symbol, the new [symbol_cache] and the addresses passed to
    [dladdr]. *)
Definition addr_to_symbol (P : platform) (sc : gmap Z string) (addr : Z)
    : string * gmap Z string * list Z :=
  match sc !! addr with
  | Some sym => (sym, sc, [])
  | None =>
      let symbol :=
        match dladdr_sym P addr with
        | Some (sname, saddr) =>
            let s0 := if starts_with_underscore sname then
                        match cxa_demangle P sname with Some d => d | None => "" end
                      else "" in
            let s1 := if String.eqb s0 "" then sname else s0 in
            if String.eqb s1 "" then s1
            else (s1 ++ ":" ++ std_to_string (addr - saddr))%string
        | None => ""
        end in
      (symbol, <[addr:=symbol]> sc, [addr])
  end.

(** The loop [while (i < callstack_depth)], [n] iterations from index [i]. *)
Fixpoint print_frames (P : platform) (callstack_depth : Z) (callstack : list Z)
    (i : nat) (n : nat) (sc : gmap Z string) (trace : list (Z * string))
    : list (Z * string) * gmap Z string :=
  match n with
  | O => (trace, sc)
  | S n' =>
      let a := default 0 (callstack !! i) in
      let '(symbol, sc1, _) := addr_to_symbol P sc a in
      let trace1 := if callstack_depth - 5 <=? Z.of_nat i then trace ++ [(a, symbol)]
                    else trace in
      print_frames P callstack_depth callstack (S i) n' sc1 trace1
  end.

(** Returns the ["trace"] member (if set), the new [symbol_cache] and the
    text written to the file. *)
Definition log_print_callstack (P : platform) (sc : gmap Z string)
    (callstack_depth : Z) (callstack : list Z)
    : option (list (Z * string)) * gmap Z string * list out_item :=
  if 0 <? callstack_depth then
    let '(trace, sc') :=
      print_frames P callstack_depth callstack 1 (Z.to_nat callstack_depth - 1) sc [] in
    (Some trace, sc', [])
  else
    (None, sc,
     [OutText ("    error: backtrace() returned empty callstack" ++ nl)%string]).

(** ** [log_summary] *)

(** Iteration over a [std::map<void *, _>]: ascending pointers. *)
Definition key_le {V} (x y : Z * V) : Prop := x.1 <= y.1.
#[export] Instance key_le_dec {V} : RelDecision (@key_le V) :=
  fun x y => decide (x.1 <= y.1).

Definition map_in_order {V} (m : gmap Z V) : list (Z * V) :=
  merge_sort key_le (map_to_list m).

(** [operator<] of [std::vector<void *>]: lexicographic. *)
Fixpoint vec_lt (a b : list Z) : bool :=
  match a, b with
  | _, [] => false
  | [], _ :: _ => true
  | x :: a', y :: b' => if x <? y then true else if y <? x then false else vec_lt a' b'
  end.

Definition vec_le (a b : list Z) : bool := negb (vec_lt b a).

(** Iteration over a [std::map<std::vector<void *>, _>]. *)
Definition vkey_le {V} (x y : list Z * V) : Prop := vec_le x.1 y.1 = true.
#[export] Instance vkey_le_dec {V} : RelDecision (@vkey_le V) :=
  fun x y => decide (vec_le x.1 y.1 = true).

Definition vmap_in_order {V} (m : gmap (list Z) V) : list (list Z * V) :=
  merge_sort vkey_le (map_to_list m).

(** One iteration of the grouping loop. The [ssize_t] and [int] sums are
    taken without wrap-around (signed overflow is undefined in C++). *)
Definition group_step (g : gmap (list Z) hu_allocinfo) (a : hu_allocinfo)
    : gmap (list Z) hu_allocinfo :=
  let key := take (Z.to_nat (callstack_depth a)) (callstack a) in
  match g !! key with
  | Some r =>
      <[key := mk_allocinfo (ptr r) (size r + size a) (callstack r)
                 (callstack_depth r) (count r + 1)]> g
  | None => <[key := a]> g
  end.

(** The grouping loop: the map, [leak_total_bytes], [leak_total_blocks]. *)
Definition group_allocations (g : gmap (list Z) hu_allocinfo)
    (l : list (Z * hu_allocinfo)) (tb tbl : Z)
    : gmap (list Z) hu_allocinfo * Z * Z :=
  fold_left (fun '(g, tb, tbl) kv => (group_step g kv.2, ull (tb + size kv.2), ull (tbl + 1)))
    l (g, tb, tbl).

(** [std::multiset<hu_allocinfo_t, size_compare>::insert]: an element goes
    after the elements of equal size. *)
Fixpoint ms_insert (x : hu_allocinfo) (l : list hu_allocinfo) : list hu_allocinfo :=
  match l with
  | [] => [x]
  | y :: l' => if size x <? size y then x :: l else y :: ms_insert x l'
  end.

Definition allocations_by_size (g : gmap (list Z) hu_allocinfo) : list hu_allocinfo :=
  fold_left (fun acc kv => ms_insert kv.2 acc) (vmap_in_order g) [].

(** The output loop over [allocations_by_size] in reverse. *)
Fixpoint leaks_loop (P : platform) (minleak : Z) (l : list hu_allocinfo)
    (oc sc : gmap Z string) (out : list out_item) (acc : list leak_obj)
    : list leak_obj * gmap Z string * gmap Z string * list out_item :=
  match l with
  | [] => (acc, oc, sc, out)
  | it :: l' =>
      if minleak <=? size it then
        let '(valid, oc1, _) :=
          log_is_valid_callstack P oc (callstack_depth it) (callstack it) true in
        if valid then
          let '(trace, sc1, txt) :=
            log_print_callstack P sc (callstack_depth it) (callstack it) in
          leaks_loop P minleak l' oc1 sc1 (out ++ txt)
            (acc ++ [mk_leak (size it) (count it) trace])
        else leaks_loop P minleak l' oc1 sc out acc
      else (acc, oc, sc, out)
  end.

Definition log_summary (P : platform) (st : hu_state) : hu_state :=
  match hu_log_file (cfg st) with
  | None => st
  | Some path =>
      if negb (fopen_ok P path) then st else
      let '(g, tb, tbl) :=
        group_allocations (allocations_by_callstack st)
          (map_in_order (allocations st)) 0 0 in
      let '(lk, oc, sc, txt) :=
        leaks_loop P (hu_log_minleak (cfg st)) (rev (allocations_by_size g))
          (objfile_cache st) (symbol_cache st) [] [] in
      let c := ctr st in
      let j := mk_report tb tbl (allocinfo_total_allocs c)
                 (allocinfo_total_frees c) (allocinfo_total_alloc_bytes c)
                 (pid (cfg st)) lk in
      mk_state (cfg st) (logging_enabled st) (callcount st) c (allocations st)
        sc oc g (out_file st ++ txt ++ [OutJson j])
  end.

(** ** Reading of the claims over event sequences *)

Definition sum_Z (l : list Z) : Z := foldr Z.add 0 l.

(** [Some (p, s)] for a top-level [log_call EVENT_MALLOC p s _ _]. *)
Definition malloc_of (c : hu_call) : option (Z * Z) :=
  match c with
  | log_call EVENT_MALLOC p s _ _ => Some (p, s)
  | _ => None
  end.

Definition frees_ptr (p : Z) (c : hu_call) : bool :=
  match c with
  | log_call EVENT_FREE q _ _ _ => q =? p
  | _ => false
  end.

(** The addresses of the allocations of a sequence, in order. *)
Definition malloc_ptrs (cs : list hu_call) : list Z :=
  omap (fun c => fst <$> malloc_of c) cs.

(** The allocations [(address, size)] of a sequence with no later
    deallocation of their address. *)
Fixpoint live_allocs (cs : list hu_call) : list (Z * Z) :=
  match cs with
  | [] => []
  | c :: rest =>
      match malloc_of c with
      | Some (p, s) => if existsb (frees_ptr p) rest then [] else [(p, s)]
      | None => []
      end ++ live_allocs rest
  end.

(** Sum of the [size] fields of a table. *)
Definition table_sum (m : gmap Z hu_allocinfo) : Z :=
  sum_Z (map (fun kv => size kv.2) (map_to_list m)).

Definition table_pairs (m : gmap Z hu_allocinfo) : list (Z * Z) :=
  map (fun kv => (kv.1, size kv.2)) (map_to_list m).

Definition live_pairs (cs : list hu_call) : list (Z * Z) :=
  map (fun ps => (ps.1, to_ssize ps.2)) (live_allocs cs).

Definition live_inv (cs : list hu_call) (st : hu_state) : Prop :=
  table_pairs (allocations st) ≡ₚ live_pairs cs /\
  allocinfo_current_alloc_bytes (ctr st) = ull (sum_Z (map snd (live_allocs cs))).

(** A platform and an environment for concrete runs: [dladdr] knows the
    addresses 7 (in [libobjc.A.dylib]) and 8 (in [app], symbol [_Z3foov]
    at 5); the output file opens. *)
Definition demo_platform : platform :=
  mk_platform
    (fun a => if a =? 7 then Some "libobjc.A.dylib"%string
              else if a =? 8 then Some "app"%string else None)
    (fun a => if a =? 8 then Some ("_Z3foov"%string, 5) else None)
    (fun _ => Some "foo()"%string)
    (fun _ => true).

(** [HU_FILE=out.json HU_FREE=1 HU_MINLEAK=0]. *)
Definition demo_env : hu_env :=
  mk_env (Some "out.json"%string) (Some "1"%string) None (Some "0"%string) 42.

(** The state after [log_init] and [log_enable(1)]. *)
Definition start_state (P : platform) (e : hu_env) : hu_state :=
  log_enable 1 (log_init P e).1.

(** The same platform, where the output file cannot be opened. *)
Definition closed_platform : platform :=
  mk_platform (dladdr_fname demo_platform) (dladdr_sym demo_platform)
    (cxa_demangle demo_platform) (fun _ => false).

(** The state after [log_init], [log_enable(1)] and the allocation of
    1000 (100 bytes). *)
Definition c10_state : hu_state :=
  default (start_state demo_platform demo_env)
    (log_event demo_platform (log_call EVENT_MALLOC 1000 100 [1; 2] [])
       (start_state demo_platform demo_env)).

(** Calls of a sequence, none of which allocates over a live entry. *)
Fixpoint run_no_double (P : platform) (cs : list hu_call) (st : hu_state) : Prop :=
  match cs with
  | [] => True
  | c :: cs' =>
      (forall q s stack n, c = log_call EVENT_MALLOC q s stack n -> allocations st !! q = None) /\
      (forall st', log_event P c st = Some st' -> run_no_double P cs' st')
  end.

(** The key of a record in [allocations_by_callstack]: the vector assigned
    from [callstack] to [callstack + callstack_depth]. *)
Definition key_of (a : hu_allocinfo) : list Z :=
  take (Z.to_nat (callstack_depth a)) (callstack a).

(** The live records of a table (in any order). *)
Definition table_records (m : gmap Z hu_allocinfo) : list hu_allocinfo :=
  map snd (map_to_list m).

(** The records of [allocations_by_callstack] (in any order). *)
Definition group_records (g : gmap (list Z) hu_allocinfo) : list hu_allocinfo :=
  map snd (map_to_list g).




(** The cache after a sequence of [addr_to_symbol] calls. *)
Fixpoint resolve_seq (P : platform) (sc : gmap Z string) (bs : list Z) : gmap Z string :=
  match bs with
  | [] => sc
  | b :: bs' => resolve_seq P (addr_to_symbol P sc b).1.2 bs'
  end.

(** The first index printed by [log_print_callstack]. *)
Definition trace_lo (d : Z) : nat := Z.to_nat (Z.max 1 (d - 5)).

(** A record of [allocations_by_callstack] after the records [fl] of its
    key have been added to [r]. *)
Definition bump (r : hu_allocinfo) (fl : list hu_allocinfo) : hu_allocinfo :=
  mk_allocinfo (ptr r) (size r + sum_Z (map size fl)) (callstack r)
    (callstack_depth r) (count r + Z.of_nat (length fl)).



(** Size orders of [allocations_by_size] and of its reverse. *)
Definition size_le (x y : hu_allocinfo) : Prop := size x <= size y.
Definition size_ge (x y : hu_allocinfo) : Prop := size y <= size x.

(** The events of the C1 example. *)
Definition c1_events : list hu_call :=
  [log_call EVENT_MALLOC 1000 100 [1; 2; 3] [log_call EVENT_MALLOC 5 3 [] []];
   log_call EVENT_MALLOC 2000 200 [1; 2; 3] [];
   log_call EVENT_FREE 1000 0 [1; 2] [];
   log_call EVENT_FREE 3000 0 [1; 2] [];
   log_call EVENT_MALLOC 4000 50 [4] []].

(** Two allocations at the stack [1; 2; 3] and one at [4; 5]. *)
Definition c4_calls : list hu_call :=
  [log_call EVENT_MALLOC 1000 100 [1; 2; 3] [];
   log_call EVENT_MALLOC 2000 200 [1; 2; 3] [];
   log_call EVENT_MALLOC 3000 5 [4; 5] []].

Definition c4_state : hu_state :=
  default (start_state demo_platform demo_env)
    (log_events demo_platform c4_calls (start_state demo_platform demo_env)).

(** [HU_FILE=out.json HU_FREE=1 HU_MINLEAK=300]. *)
Definition c5_env : hu_env :=
  mk_env (Some "out.json"%string) (Some "1"%string) None (Some "300"%string) 42.

Definition c5_state : hu_state :=
  default (start_state demo_platform c5_env)
    (log_events demo_platform c4_calls (start_state demo_platform c5_env)).

(** One allocation with a captured stack of depth 3. *)
Definition c7_state : hu_state :=
  default (start_state demo_platform demo_env)
    (log_event demo_platform (log_call EVENT_MALLOC 1000 100 [10; 11; 12] [])
       (start_state demo_platform demo_env)).

(** Three allocations at the stacks [[1]], [[2]], [[3]] of 5, 300 and 50
    bytes: the group map holds them in that (key) order. *)
Definition unsorted_groups_state : hu_state :=
  default (start_state demo_platform demo_env)
    (log_events demo_platform
       [log_call EVENT_MALLOC 1000 5 [7; 1] [];
        log_call EVENT_MALLOC 2000 300 [7; 2] [];
        log_call EVENT_MALLOC 3000 50 [7; 3] []]
       (start_state demo_platform demo_env)).

(** An allocation whose captured stack is empty, next to one whose stack
    is not. *)
Definition empty_stack_state : hu_state :=
  default (start_state demo_platform demo_env)
    (log_events demo_platform
       [log_call EVENT_MALLOC 1000 10 [] [];
        log_call EVENT_MALLOC 2000 20 [1; 2] []]
       (start_state demo_platform demo_env)).

(** ** Further readings of the source *)

(** The shape of every record of the allocation table: keyed by its own
    pointer, count 1, and a captured stack of at most [MAX_CALL_STACK]
    frames whose length is [callstack_depth]. *)
Definition table_wf (m : gmap Z hu_allocinfo) : Prop :=
  map_Forall (fun p a =>
    ptr a = p /\ count a = 1 /\
    callstack_depth a = Z.of_nat (length (callstack a)) /\
    (length (callstack a) <= MAX_CALL_STACK)%nat) m.

#[export] Instance table_wf_dec m : Decision (table_wf m).
Proof. unfold table_wf. apply _. Defined.

(** A top-level deallocation call. *)
Definition is_free_call (c : hu_call) : bool :=
  match c with log_call EVENT_FREE _ _ _ _ => true | _ => false end.

(** The state with the [hu_log_nosyms] flag replaced. *)
Definition set_nosyms (b : bool) (st : hu_state) : hu_state :=
  mk_state
    (mk_config (hu_log_file (cfg st)) (hu_log_free (cfg st)) b
       (hu_log_minleak (cfg st)) (pid (cfg st)))
    (logging_enabled st) (callcount st) (ctr st) (allocations st)
    (symbol_cache st) (objfile_cache st) (allocations_by_callstack st) (out_file st).

(** * Proofs *)

(** ** Arithmetic *)

Lemma ull_add_idemp a b : ull (ull a + b) = ull (a + b).
Proof. unfold ull. apply Zplus_mod_idemp_l. Qed.

Lemma ull_sub_idemp a b : ull (ull a - b) = ull (a - b).
Proof. unfold ull. apply Zminus_mod_idemp_l. Qed.

Lemma to_ssize_shift s : exists k, to_ssize s = s + k * ULL_MOD.
Proof.
  unfold to_ssize, ULL_MOD.
  pose proof (Z.div_mod s (2 ^ 64) ltac:(lia)) as Hd.
  destruct (s mod 2 ^ 64 <? 2 ^ 63).
  - exists (- (s / 2 ^ 64)). lia.
  - exists (- (s / 2 ^ 64) - 1). lia.
Qed.

Lemma ull_add_ssize a s : ull (a + to_ssize s) = ull (a + s).
Proof.
  destruct (to_ssize_shift s) as [k ->]. unfold ull.
  replace (a + (s + k * ULL_MOD)) with (a + s + k * ULL_MOD) by lia.
  apply Z_mod_plus_full.
Qed.

Lemma ull_sub_ssize a s : ull (a - to_ssize s) = ull (a - s).
Proof.
  destruct (to_ssize_shift s) as [k ->]. unfold ull.
  replace (a - (s + k * ULL_MOD)) with (a - s + (- k) * ULL_MOD) by lia.
  apply Z_mod_plus_full.
Qed.

Lemma sum_Z_perm (l1 l2 : list Z) : l1 ≡ₚ l2 -> sum_Z l1 = sum_Z l2.
Proof. induction 1; simpl in *; lia. Qed.

Lemma sum_Z_app (l1 l2 : list Z) : sum_Z (l1 ++ l2) = sum_Z l1 + sum_Z l2.
Proof. induction l1; simpl in *; lia. Qed.

(** ** Record updates *)

Lemma set_callcount_id st : set_callcount (callcount st) st = st.
Proof. by destruct st. Qed.

Lemma set_callcount_twice n m st :
  set_callcount n (set_callcount m st) = set_callcount n st.
Proof. by destruct st. Qed.

(** ** The reentrancy gate *)

Lemma log_event_unfold P ev p s stack nested st :
  log_event P (log_call ev p s stack nested) st =
  if logging_enabled st =? 0 then Some st else
  let '(in_recursion, st1) := log_event_enter st in
  if in_recursion then Some st1 else
  st2 ← log_events P nested st1;
  st3 ← log_event_body P ev p s stack st2;
  Some (log_event_exit st3).
Proof.
  simpl. destruct (logging_enabled st =? 0); [done |].
  destruct (log_event_enter st) as [[] st1]; [done |].
  f_equal. revert st1. induction nested as [| c l IH]; intros st1; [done |].
  simpl. destruct (log_event P c st1); simpl; [apply IH | done].
Qed.

Lemma log_events_app P l1 l2 st :
  log_events P (l1 ++ l2) st = log_events P l1 st ≫= log_events P l2.
Proof.
  revert st. induction l1 as [| c l IH]; intros st; [done |].
  simpl. destruct (log_event P c st); simpl; [apply IH | done].
Qed.

(** A call that finds the counter taken changes nothing. *)
Lemma log_event_nested P c st :
  callcount st <> 0 -> log_event P c st = Some st.
Proof.
  intros Hc. destruct c. rewrite log_event_unfold.
  destruct (logging_enabled st =? 0); [done |].
  unfold log_event_enter. by rewrite (proj2 (Z.eqb_neq _ _) Hc).
Qed.

Lemma log_events_nested P l st :
  callcount st <> 0 -> log_events P l st = Some st.
Proof.
  intros Hc. induction l as [| c l IH]; [done |].
  simpl. by rewrite log_event_nested.
Qed.

Lemma log_is_valid_callstack_oc_only P oc d cs a :
  exists b oc' qs, log_is_valid_callstack P oc d cs a = (b, oc', qs).
Proof. destruct (log_is_valid_callstack P oc d cs a) as [[b oc'] qs]. eauto. Qed.

(** The bookkeeping neither reads nor writes the counter. *)
Lemma log_event_body_callcount P ev p s stack st n :
  log_event_body P ev p s stack (set_callcount n st) =
  set_callcount n <$> log_event_body P ev p s stack st.
Proof.
  destruct st as [c le cc ct al sc oc g out].
  destruct ev; unfold log_event_body; simpl; [done |].
  destruct (al !! p); simpl; [done |].
  destruct (hu_log_free c); simpl; [| done].
  destruct (log_is_valid_callstack P oc _ _ false) as [[[] oc'] qs]; simpl; [| done].
  destruct (hu_log_file c); simpl; [| done].
  by destruct (fopen_ok P s0).
Qed.

Lemma log_event_body_keeps P ev p s stack st st' :
  log_event_body P ev p s stack st = Some st' ->
  callcount st' = callcount st /\ logging_enabled st' = logging_enabled st /\
  cfg st' = cfg st.
Proof.
  destruct st as [c le cc ct al sc oc g out].
  destruct ev; unfold log_event_body; simpl; [by intros [= <-] |].
  destruct (al !! p); simpl; [by intros [= <-] |].
  destruct (hu_log_free c); simpl; [| by intros [= <-]].
  destruct (log_is_valid_callstack P oc _ _ false) as [[[] oc'] qs]; simpl;
    [| by intros [= <-]].
  destruct (hu_log_file c); simpl; [| done].
  destruct (fopen_ok P s0); simpl; by intros [= <-].
Qed.

(** A top-level call performs exactly its own bookkeeping, whatever the
    nested calls are. *)
Lemma log_event_top P ev p s stack nested st :
  logging_enabled st <> 0 -> callcount st = 0 ->
  log_event P (log_call ev p s stack nested) st = log_event_body P ev p s stack st.
Proof.
  intros He Hc. rewrite log_event_unfold.
  rewrite (proj2 (Z.eqb_neq _ _) He). unfold log_event_enter.
  rewrite Hc. simpl.
  rewrite log_events_nested by (simpl; lia). simpl.
  rewrite log_event_body_callcount.
  destruct (log_event_body P ev p s stack st) as [st' |] eqn:Hb; simpl; [| done].
  destruct (log_event_body_keeps _ _ _ _ _ _ _ Hb) as [Hcc _].
  unfold log_event_exit. rewrite set_callcount_twice. simpl.
  replace (0 + 1 - 1) with (callcount st') by lia. by rewrite set_callcount_id.
Qed.

(** ** The live-allocation invariant *)

Lemma existsb_app_single {A} (f : A -> bool) l x :
  existsb f (l ++ [x]) = existsb f l || f x.
Proof. induction l as [| y l IH]; simpl; [by destruct (f x) |]. by rewrite IH, orb_assoc. Qed.

Lemma live_allocs_snoc cs c :
  live_allocs (cs ++ [c]) =
  filter (fun ps => frees_ptr ps.1 c = false) (live_allocs cs) ++
  match malloc_of c with Some ps => [ps] | None => [] end.
Proof.
  induction cs as [| c0 cs IH]; simpl.
  - destruct (malloc_of c) as [[p s] |]; [done | done].
  - rewrite IH, filter_app, app_assoc. f_equal. f_equal.
    destruct (malloc_of c0) as [[p s] |]; [| done].
    rewrite existsb_app_single.
    destruct (existsb (frees_ptr p) cs); simpl; [done |].
    destruct (frees_ptr p c) eqn:E; simpl.
    + rewrite filter_cons_False; [done | simpl; congruence].
    + rewrite filter_cons_True; [done | done].
Qed.

Lemma malloc_ptrs_snoc cs c :
  malloc_ptrs (cs ++ [c]) = malloc_ptrs cs ++ match malloc_of c with Some ps => [ps.1] | None => [] end.
Proof.
  unfold malloc_ptrs. rewrite omap_app. simpl.
  by destruct (malloc_of c) as [[p s] |].
Qed.

Lemma live_allocs_malloc cs p s :
  (p, s) ∈ live_allocs cs -> p ∈ malloc_ptrs cs.
Proof.
  induction cs as [| c cs IH]; simpl; [by intros ?%elem_of_nil |].
  unfold malloc_ptrs in *. simpl.
  destruct (malloc_of c) as [[q t] |] eqn:Hm; simpl.
  - rewrite elem_of_app. intros [Hin | Hin].
    + destruct (existsb (frees_ptr q) cs); [by apply elem_of_nil in Hin |].
      apply list_elem_of_singleton in Hin. simplify_eq. left.
    + right. by apply IH.
  - apply IH.
Qed.

Lemma filter_all {A} (Q : A -> Prop) `{forall x, Decision (Q x)} (l : list A) :
  (forall x, x ∈ l -> Q x) -> filter Q l = l.
Proof.
  induction l as [| x l IH]; intros Hall; [done |].
  rewrite filter_cons_True by (apply Hall; left). f_equal. apply IH.
  intros y Hy. apply Hall. by right.
Qed.

Lemma filter_fmap_comm {A B} (Q : B -> Prop) `{forall x, Decision (Q x)}
    (f : A -> B) (l : list A) :
  filter Q (map f l) = map f (filter (fun x => Q (f x)) l).
Proof.
  induction l as [| x l IH]; [done |]. simpl. rewrite !filter_cons.
  destruct (decide (Q (f x))); simpl; by rewrite IH.
Qed.

(** One pair per key: pick out the pair of key [p]. *)
Lemma perm_pick (l : list (Z * Z)) p x :
  NoDup l.*1 -> (p, x) ∈ l -> l ≡ₚ (p, x) :: filter (fun kv => kv.1 <> p) l.
Proof.
  induction l as [| [q y] l IH]; simpl; [by intros _ ?%elem_of_nil |].
  intros Hnd Hin. apply NoDup_cons in Hnd as [Hq Hnd].
  apply elem_of_cons in Hin as [Heq | Hin].
  - simplify_eq. rewrite filter_cons_False by (simpl; auto).
    f_equiv. rewrite filter_all; [done |].
    intros [r z] Hr. simpl. intros ->. apply Hq.
    apply list_elem_of_fmap. eexists; split; [| exact Hr]; done.
  - assert (q <> p) as Hne.
    { intros ->. apply Hq. apply list_elem_of_fmap. by exists (p, x). }
    rewrite filter_cons_True by done.
    rewrite (IH Hnd Hin) at 1. apply perm_swap.
Qed.

Lemma filter_key_absent (l : list (Z * Z)) p :
  (forall x, (p, x) ∉ l) -> filter (fun kv => kv.1 <> p) l = l.
Proof.
  intros H. apply filter_all. intros [q y] Hin. simpl. intros ->. by apply (H y).
Qed.

Lemma table_pairs_keys m : NoDup (table_pairs m).*1.
Proof.
  unfold table_pairs. rewrite <- list_fmap_compose.
  assert ((fst ∘ (fun kv : Z * hu_allocinfo => (kv.1, size kv.2))) = fst) as -> by done.
  apply NoDup_fst_map_to_list.
Qed.

Lemma table_pairs_elem m p x :
  (p, x) ∈ table_pairs m <-> exists a, m !! p = Some a /\ size a = x.
Proof.
  unfold table_pairs. rewrite list_elem_of_fmap. split.
  - intros [[q a] [Heq Hin]]. simplify_eq. exists a.
    split; [by apply elem_of_map_to_list | done].
  - intros [a [Hl <-]]. exists (p, a). split; [done |]. by apply elem_of_map_to_list.
Qed.

Lemma table_pairs_insert m p a :
  m !! p = None -> table_pairs (<[p:=a]> m) ≡ₚ (p, size a) :: table_pairs m.
Proof. intros H. unfold table_pairs. by rewrite map_to_list_insert. Qed.

Lemma table_pairs_delete m p a :
  m !! p = Some a -> table_pairs m ≡ₚ (p, size a) :: table_pairs (delete p m).
Proof.
  intros H. unfold table_pairs. rewrite <- (map_to_list_delete m p a H) at 1. done.
Qed.

Lemma sum_snd_pick (l : list (Z * Z)) p x :
  NoDup l.*1 -> (p, x) ∈ l ->
  sum_Z (map snd l) = x + sum_Z (map snd (filter (fun kv => kv.1 <> p) l)).
Proof.
  intros Hnd Hin. rewrite (sum_Z_perm _ _ (Permutation_map snd (perm_pick l p x Hnd Hin))).
  done.
Qed.

Lemma live_pairs_keys cs : (live_pairs cs).*1 = (live_allocs cs).*1.
Proof. unfold live_pairs. rewrite <- list_fmap_compose. by apply list_fmap_ext. Qed.

Lemma filter_live_pairs cs p :
  filter (fun kv => kv.1 <> p) (live_pairs cs) =
  map (fun ps => (ps.1, to_ssize ps.2)) (filter (fun kv => kv.1 <> p) (live_allocs cs)).
Proof. unfold live_pairs. by rewrite filter_fmap_comm. Qed.

(** ** Effect of the bookkeeping on the table and the counters *)

Lemma body_malloc P p s stack st :
  log_event_body P EVENT_MALLOC p s stack st =
  Some (set_ctr
          (mk_counters (allocinfo_total_frees (ctr st))
             (ull (allocinfo_total_allocs (ctr st) + 1))
             (ull (allocinfo_total_alloc_bytes (ctr st) + s))
             (ull (allocinfo_current_alloc_bytes (ctr st) + s))
             (if allocinfo_peak_alloc_bytes (ctr st) <?
                 ull (allocinfo_current_alloc_bytes (ctr st) + s)
              then ull (allocinfo_current_alloc_bytes (ctr st) + s)
              else allocinfo_peak_alloc_bytes (ctr st)))
          (set_allocations
             (<[p:=mk_allocinfo p (to_ssize s) (backtrace stack)
                    (Z.of_nat (length (backtrace stack))) 1]> (allocations st)) st)).
Proof. done. Qed.

Lemma body_free_found P p s stack st a :
  allocations st !! p = Some a ->
  exists st', log_event_body P EVENT_FREE p s stack st = Some st' /\
    allocations st' = delete p (allocations st) /\
    allocinfo_current_alloc_bytes (ctr st') =
      ull (allocinfo_current_alloc_bytes (ctr st) - size a) /\
    allocinfo_total_frees (ctr st') = ull (allocinfo_total_frees (ctr st) + 1).
Proof. intros H. unfold log_event_body. rewrite H. simpl. by eexists. Qed.

(** The deallocation of an untracked pointer: when it is defined, the
    table and [allocinfo_current_alloc_bytes] are kept, [allocinfo_total_frees]
    grows by one, and the output is the invalid-deallocation note or
    nothing. *)
Lemma body_free_absent P p s stack st st' :
  allocations st !! p = None ->
  log_event_body P EVENT_FREE p s stack st = Some st' ->
  allocations st' = allocations st /\
  allocinfo_current_alloc_bytes (ctr st') = allocinfo_current_alloc_bytes (ctr st) /\
  allocinfo_total_frees (ctr st') = ull (allocinfo_total_frees (ctr st) + 1) /\
  (out_file st' = out_file st \/ out_file st' = out_file st ++ invalid_dealloc_text).
Proof.
  intros H. unfold log_event_body. rewrite H.
  destruct (hu_log_free (cfg st)); simpl; [| intros [= <-]; simpl; auto].
  destruct (log_is_valid_callstack P _ _ _ false) as [[[] oc] qs]; simpl;
    [| intros [= <-]; simpl; auto].
  destruct (hu_log_file (cfg st)) as [path |]; simpl; [| done].
  destruct (fopen_ok P path); simpl; intros [= <-]; simpl; auto.
Qed.

Lemma live_pairs_elem cs p x :
  (p, x) ∈ live_pairs cs -> exists s, (p, s) ∈ live_allocs cs /\ to_ssize s = x.
Proof.
  unfold live_pairs. rewrite list_elem_of_fmap. intros [[q s] [Heq Hin]].
  simplify_eq. eauto.
Qed.

Lemma live_keys_nodup cs st :
  table_pairs (allocations st) ≡ₚ live_pairs cs -> NoDup (live_allocs cs).*1.
Proof.
  intros Hp. rewrite <- live_pairs_keys, <- Hp. apply table_pairs_keys.
Qed.

Lemma live_inv_step P cs c st st' :
  NoDup (malloc_ptrs (cs ++ [c])) ->
  callcount st = 0 -> logging_enabled st <> 0 ->
  live_inv cs st -> log_event P c st = Some st' ->
  live_inv (cs ++ [c]) st' /\ callcount st' = 0 /\ logging_enabled st' = logging_enabled st.
Proof.
  intros Hnd Hc He [Hp Hcur]. destruct c as [[] p s stack nested].
  all: rewrite log_event_top by done; intros Hb.
  all: destruct (log_event_body_keeps _ _ _ _ _ _ _ Hb) as (Hc' & He' & _).
  all: split; [| split; congruence].
  all: unfold live_inv, live_pairs; rewrite live_allocs_snoc; simpl.
  - (* EVENT_MALLOC *)
    rewrite body_malloc in Hb. injection Hb as <-.
    rewrite filter_all by done. simpl.
    assert (allocations st !! p = None) as Hnone.
    { destruct (allocations st !! p) as [a |] eqn:Ha; [| done]. exfalso.
      rewrite malloc_ptrs_snoc in Hnd. simpl in Hnd.
      apply NoDup_app in Hnd as (_ & Hdis & _).
      assert ((p, size a) ∈ live_pairs cs) as Hin.
      { rewrite <- Hp. apply table_pairs_elem. eauto. }
      apply live_pairs_elem in Hin as (s' & Hin & _).
      apply live_allocs_malloc in Hin. apply (Hdis p Hin). by left. }
    split.
    + rewrite table_pairs_insert by done. simpl. rewrite Hp.
      unfold live_pairs. rewrite map_app. simpl. apply Permutation_cons_append.
    + rewrite Hcur, ull_add_idemp, map_app, sum_Z_app. simpl. f_equal. lia.
  - (* EVENT_FREE *)
    rewrite app_nil_r.
    rewrite (list_filter_iff _ (fun kv => kv.1 <> p))
      by (intros [q t]; simpl; rewrite Z.eqb_neq; split; congruence).
    assert (NoDup (live_allocs cs).*1) as Hk by (eapply live_keys_nodup; eauto).
    destruct (allocations st !! p) as [a |] eqn:Ha.
    + destruct (body_free_found P p s stack st a Ha) as (st1 & Hb1 & Hal & Hcu & _).
      rewrite Hb in Hb1. injection Hb1 as <-.
      assert ((p, size a) ∈ live_pairs cs) as Hin.
      { rewrite <- Hp. apply table_pairs_elem. eauto. }
      destruct (live_pairs_elem _ _ _ Hin) as (sp & Hin' & Hsp).
      split.
      * rewrite Hal, <- filter_live_pairs, <- Hp.
        rewrite (table_pairs_delete _ _ _ Ha), filter_cons_False by (simpl; auto).
        rewrite filter_key_absent; [done |]. intros x Hx.
        apply table_pairs_elem in Hx as (b & Hb' & _). by rewrite lookup_delete_eq in Hb'.
      * rewrite Hcu, Hcur, ull_sub_idemp, <- Hsp, ull_sub_ssize.
        rewrite (sum_snd_pick _ p sp Hk Hin'). f_equal. lia.
    + destruct (body_free_absent P p s stack st st' Ha Hb) as (Hal & Hcu & _).
      rewrite filter_key_absent.
      2:{ intros x Hx.
          assert ((p, to_ssize x) ∈ live_pairs cs) as Hin.
          { unfold live_pairs. apply list_elem_of_fmap. by exists (p, x). }
          rewrite <- Hp in Hin. apply table_pairs_elem in Hin as (b & Hb' & _).
          congruence. }
      split; [by rewrite Hal | by rewrite Hcu].
Qed.

Lemma live_inv_run P cs st st' :
  NoDup (malloc_ptrs cs) ->
  callcount st = 0 -> logging_enabled st <> 0 -> allocations st = ∅ ->
  allocinfo_current_alloc_bytes (ctr st) = 0 ->
  log_events P cs st = Some st' ->
  live_inv cs st' /\ callcount st' = 0 /\ logging_enabled st' = logging_enabled st.
Proof.
  intros Hnd Hc He Hal Hcur. revert st' Hnd.
  induction cs as [| c cs IH] using rev_ind; intros st' Hnd Hrun.
  - injection Hrun as <-. split; [| done]. split; [| by rewrite Hcur].
    rewrite Hal. done.
  - rewrite log_events_app in Hrun.
    destruct (log_events P cs st) as [st1 |] eqn:H1; simpl in Hrun; [| done].
    destruct (log_event P c st1) as [st2 |] eqn:H2; simpl in Hrun; [| done].
    injection Hrun as <-.
    assert (NoDup (malloc_ptrs cs)) as Hnd'.
    { rewrite malloc_ptrs_snoc in Hnd. by apply NoDup_app in Hnd as []. }
    destruct (IH st1 Hnd' eq_refl) as (Hinv & Hc1 & He1).
    destruct (live_inv_step P cs c st1 st2 Hnd Hc1 ltac:(congruence) Hinv H2)
      as (? & ? & ?).
    split; [done | split; congruence].
Qed.

(** ** Sums over the table *)

Lemma table_sum_insert m p a :
  m !! p = None -> table_sum (<[p:=a]> m) = size a + table_sum m.
Proof.
  intros H. unfold table_sum.
  rewrite (sum_Z_perm _ _ (Permutation_map _ (map_to_list_insert m p a H))). done.
Qed.

Lemma table_sum_delete m p a :
  m !! p = Some a -> table_sum m = size a + table_sum (delete p m).
Proof.
  intros H. unfold table_sum.
  rewrite <- (sum_Z_perm _ _ (Permutation_map _ (map_to_list_delete m p a H))). done.
Qed.

(** A call that does not allocate over a live entry keeps the difference
    between [allocinfo_current_alloc_bytes] and the table's sum. *)
Lemma excess_step P c st st' x :
  callcount st = 0 -> logging_enabled st <> 0 ->
  allocinfo_current_alloc_bytes (ctr st) = ull (table_sum (allocations st) + x) ->
  (forall q s stack n, c = log_call EVENT_MALLOC q s stack n -> allocations st !! q = None) ->
  log_event P c st = Some st' ->
  allocinfo_current_alloc_bytes (ctr st') = ull (table_sum (allocations st') + x) /\
  callcount st' = 0 /\ logging_enabled st' = logging_enabled st.
Proof.
  intros Hc He Hcur Hnd. destruct c as [[] p s stack nested].
  all: rewrite log_event_top by done; intros Hb.
  all: destruct (log_event_body_keeps _ _ _ _ _ _ _ Hb) as (Hc' & He' & _).
  all: split; [| split; congruence].
  - rewrite body_malloc in Hb. injection Hb as <-. simpl.
    rewrite table_sum_insert by (eapply Hnd; eauto). simpl.
    rewrite Hcur, ull_add_idemp.
    replace (to_ssize s + table_sum (allocations st) + x)
      with (table_sum (allocations st) + x + to_ssize s) by lia.
    by rewrite ull_add_ssize.
  - destruct (allocations st !! p) as [a |] eqn:Ha.
    + destruct (body_free_found P p s stack st a Ha) as (st1 & Hb1 & Hal & Hcu & _).
      rewrite Hb in Hb1. injection Hb1 as <-.
      rewrite Hcu, Hcur, ull_sub_idemp, Hal, (table_sum_delete _ _ _ Ha). f_equal. lia.
    + destruct (body_free_absent P p s stack st st' Ha Hb) as (Hal & Hcu & _).
      by rewrite Hal, Hcu.
Qed.

Lemma excess_run P cs st st' x :
  callcount st = 0 -> logging_enabled st <> 0 ->
  allocinfo_current_alloc_bytes (ctr st) = ull (table_sum (allocations st) + x) ->
  run_no_double P cs st -> log_events P cs st = Some st' ->
  allocinfo_current_alloc_bytes (ctr st') = ull (table_sum (allocations st') + x).
Proof.
  revert st. induction cs as [| c cs IH]; intros st Hc He Hcur Hnd Hrun.
  - by injection Hrun as <-.
  - simpl in Hrun. destruct Hnd as [Hd Hnext].
    destruct (log_event P c st) as [st1 |] eqn:H1; simpl in Hrun; [| done].
    destruct (excess_step P c st st1 x Hc He Hcur Hd H1) as (Hcur1 & Hc1 & He1).
    apply (IH st1); [done | congruence | done | by apply Hnext | done].
Qed.

Lemma ull_add_nonzero a b : ull b <> 0 -> ull (a + b) <> ull a.
Proof.
  unfold ull, ULL_MOD. intros Hb Heq. apply Hb.
  replace b with ((a + b) - a) by lia.
  rewrite Zminus_mod, Heq, Z.sub_diag. done.
Qed.

(** The validator of a deallocation path always answers for an
    allocation-side check with [true]. *)
Lemma valid_callstack_alloc P oc d cs :
  (log_is_valid_callstack P oc d cs true).1.1 = true.
Proof.
  unfold log_is_valid_callstack.
  destruct (valid_walk P cs _ "" oc []) as [[f oc'] qs].
  by rewrite andb_false_r, andb_false_l.
Qed.

Lemma body_free_absent_eq P p s stack st path :
  allocations st !! p = None -> hu_log_file (cfg st) = Some path ->
  log_event_body P EVENT_FREE p s stack st =
  let st1 :=
    if hu_log_free (cfg st) then
      let '(valid, oc, _) :=
        log_is_valid_callstack P (objfile_cache st)
          (Z.of_nat (length (backtrace stack))) (backtrace stack) false in
      if valid && fopen_ok P path
      then append_out invalid_dealloc_text (set_objfile_cache oc st)
      else set_objfile_cache oc st
    else st in
  Some (set_ctr (mk_counters (ull (allocinfo_total_frees (ctr st1) + 1))
                  (allocinfo_total_allocs (ctr st1)) (allocinfo_total_alloc_bytes (ctr st1))
                  (allocinfo_current_alloc_bytes (ctr st1)) (allocinfo_peak_alloc_bytes (ctr st1)))
          st1).
Proof.
  intros Ha Hf. unfold log_event_body. rewrite Ha. simpl.
  destruct (hu_log_free (cfg st)); [| done].
  destruct (log_is_valid_callstack P _ _ _ false) as [[[] oc] qs]; simpl; [| done].
  rewrite Hf. by destruct (fopen_ok P path).
Qed.

(** ** The symbol cache *)

Lemma addr_to_symbol_cached P sc a v :
  sc !! a = Some v -> addr_to_symbol P sc a = (v, sc, []).
Proof. intros H. unfold addr_to_symbol. by rewrite H. Qed.

Lemma addr_to_symbol_keeps P sc b a v :
  sc !! a = Some v -> (addr_to_symbol P sc b).1.2 !! a = Some v.
Proof.
  intros H. unfold addr_to_symbol.
  destruct (sc !! b) as [w |] eqn:Hb; simpl; [done |].
  rewrite lookup_insert_ne; [done |]. intros ->. congruence.
Qed.

Lemma resolve_seq_keeps P bs sc a v :
  sc !! a = Some v -> resolve_seq P sc bs !! a = Some v.
Proof.
  revert sc. induction bs as [| b bs IH]; intros sc H; simpl; [done |].
  apply IH. by apply addr_to_symbol_keeps.
Qed.

Lemma addr_to_symbol_unresolved P sc a :
  dladdr_sym P a = None -> sc !! a = None ->
  addr_to_symbol P sc a = (""%string, <[a:=""%string]> sc, [a]).
Proof. intros Hs Hc. unfold addr_to_symbol. by rewrite Hc, Hs. Qed.

(** ** The printed frames *)

Lemma print_frames_addrs P d cs n : forall i sc trace,
  map fst (print_frames P d cs i n sc trace).1 =
  map fst trace ++
  map (fun k => default 0 (cs !! k)) (filter (fun k => d - 5 <= Z.of_nat k) (seq i n)).
Proof.
  induction n as [| n IH]; intros i sc trace; simpl.
  - by rewrite app_nil_r.
  - destruct (addr_to_symbol P sc (default 0 (cs !! i))) as [[sym sc1] qs].
    rewrite IH. destruct (Z.leb_spec (d - 5) (Z.of_nat i)).
    + rewrite filter_cons_True by done. simpl. rewrite map_app, <- app_assoc. done.
    + rewrite filter_cons_False by lia. done.
Qed.

Lemma filter_seq_ge (m : nat) n : forall i,
  filter (fun k => m <= k)%nat (seq i n) = seq (Nat.max i m) (i + n - Nat.max i m).
Proof.
  induction n as [| n IH]; intros i; simpl.
  - replace (i + 0 - Nat.max i m)%nat with 0%nat by lia. done.
  - destruct (decide (m <= i)%nat) as [Hle | Hlt].
    + rewrite filter_cons_True by done. rewrite IH.
      replace (Nat.max (S i) m) with (S i) by lia.
      replace (Nat.max i m) with i by lia.
      replace (i + S n - i)%nat with (S n) by lia.
      replace (S i + n - S i)%nat with n by lia. done.
    + rewrite filter_cons_False by done. rewrite IH.
      replace (Nat.max (S i) m) with m by lia.
      replace (Nat.max i m) with m by lia.
      replace (S i + n - m)%nat with (i + S n - m)%nat by lia. done.
Qed.

Lemma print_window P sc d cs :
  0 < d ->
  exists trace, (log_print_callstack P sc d cs).1.1 = Some trace /\
    (log_print_callstack P sc d cs).2 = [] /\
    map fst trace = map (fun k => default 0 (cs !! k)) (seq (trace_lo d) (Z.to_nat d - trace_lo d)).
Proof.
  intros Hd. unfold log_print_callstack.
  destruct (Z.ltb_spec 0 d) as [_ | Hn]; [| lia].
  destruct (print_frames P d cs 1 (Z.to_nat d - 1) sc []) as [trace sc'] eqn:Hp.
  exists trace. split; [done | split; [done |]].
  pose proof (print_frames_addrs P d cs (Z.to_nat d - 1) 1 sc []) as Ha.
  rewrite Hp in Ha. simpl in Ha. rewrite Ha.
  rewrite (list_filter_iff _ (fun k => Z.to_nat (d - 5) <= k)%nat) by (intros k; lia).
  rewrite filter_seq_ge. unfold trace_lo.
  replace (Nat.max 1 (Z.to_nat (d - 5))) with (Z.to_nat (Z.max 1 (d - 5))) by lia.
  replace (1 + (Z.to_nat d - 1))%nat with (Z.to_nat d) by lia. done.
Qed.

(** ** The summary: grouping *)

Lemma sum_Z_cons x l : sum_Z (x :: l) = x + sum_Z l.
Proof. reflexivity. Qed.

Lemma group_fold l : forall g k,
  fold_left group_step l g !! k =
  match g !! k with
  | Some r => Some (bump r (filter (fun a => key_of a = k) l))
  | None =>
      match filter (fun a => key_of a = k) l with
      | [] => None
      | a0 :: fl => Some (bump a0 fl)
      end
  end.
Proof.
  induction l as [| a l IH]; intros g k; simpl.
  - destruct (g !! k) as [r |]; [| done].
    f_equal. destruct r; unfold bump; simpl. f_equal; lia.
  - rewrite IH. unfold group_step.
    change (take (Z.to_nat (callstack_depth a)) (callstack a)) with (key_of a).
    destruct (decide (key_of a = k)) as [<- | Hne].
    + rewrite filter_cons_True by done.
      destruct (g !! key_of a) as [r |]; rewrite lookup_insert_eq; [| done].
      f_equal. unfold bump. cbn [map length ptr size callstack callstack_depth count].
      rewrite sum_Z_cons. f_equal; lia.
    + rewrite filter_cons_False by done.
      destruct (g !! key_of a); rewrite lookup_insert_ne by done; done.
Qed.

Lemma group_allocations_eq l : forall g tb tbl,
  0 <= tb < ULL_MOD -> 0 <= tbl < ULL_MOD ->
  group_allocations g l tb tbl =
  (fold_left group_step (map snd l) g,
   ull (tb + sum_Z (map (fun kv => size kv.2) l)),
   ull (tbl + Z.of_nat (length l))).
Proof.
  unfold group_allocations.
  induction l as [| [k a] l IH]; intros g tb tbl Htb Htbl; cbn -[sum_Z ull group_step].
  - unfold ull. rewrite !Z.add_0_r, !Z.mod_small by done. done.
  - rewrite IH by (unfold ull; apply Z.mod_pos_bound; unfold ULL_MOD; lia).
    rewrite !ull_add_idemp, sum_Z_cons. rewrite Z.add_assoc, Nat2Z.inj_succ, <- Z.add_1_l, Z.add_assoc. done.
Qed.

Lemma key_of_bump r fl : key_of (bump r fl) = key_of r.
Proof. reflexivity. Qed.

Lemma table_records_elem m a : a ∈ table_records m -> exists p, m !! p = Some a.
Proof.
  unfold table_records. rewrite list_elem_of_In, in_map_iff.
  intros ([p a'] & <- & Hin). exists p. simpl.
  apply elem_of_map_to_list. by apply list_elem_of_In.
Qed.

Lemma map_in_order_perm {V} (m : gmap Z V) : map_in_order m ≡ₚ map_to_list m.
Proof. apply merge_sort_Permutation. Qed.

Lemma vmap_in_order_perm {V} (m : gmap (list Z) V) : vmap_in_order m ≡ₚ map_to_list m.
Proof. apply merge_sort_Permutation. Qed.

(** ** The summary: ordering and the output loop *)

Lemma ms_insert_perm x l : ms_insert x l ≡ₚ x :: l.
Proof.
  induction l as [| y l IH]; simpl; [done |].
  destruct (size x <? size y); [done |].
  rewrite IH. apply perm_swap.
Qed.

Lemma ms_insert_sorted x l :
  StronglySorted size_le l -> StronglySorted size_le (ms_insert x l).
Proof.
  induction l as [| y l IH]; intros Hs; simpl.
  - repeat constructor.
  - inversion Hs as [| ? ? Hs' Hf]; subst.
    destruct (Z.ltb_spec (size x) (size y)).
    + constructor; [done |]. constructor; [unfold size_le; lia |].
      eapply Forall_impl; [exact Hf |]. unfold size_le. intros; lia.
    + constructor; [by apply IH |]. rewrite Forall_forall. intros z Hz.
      assert (z ∈ x :: l) as Hz' by (by rewrite <- (ms_insert_perm x l)).
      apply elem_of_cons in Hz' as [-> | Hz']; [unfold size_le; lia |].
      rewrite Forall_forall in Hf. by apply Hf.
Qed.

Lemma ms_fold (L : list (list Z * hu_allocinfo)) : forall acc,
  StronglySorted size_le acc ->
  StronglySorted size_le (fold_left (fun acc kv => ms_insert kv.2 acc) L acc) /\
  fold_left (fun acc kv => ms_insert kv.2 acc) L acc ≡ₚ map snd L ++ acc.
Proof.
  induction L as [| kv L IH]; intros acc Hs; simpl; [done |].
  destruct (IH (ms_insert kv.2 acc) (ms_insert_sorted _ _ Hs)) as [H1 H2].
  split; [done |]. rewrite H2, ms_insert_perm. symmetry. apply Permutation_middle.
Qed.

Lemma allocations_by_size_spec g :
  StronglySorted size_le (allocations_by_size g) /\
  allocations_by_size g ≡ₚ group_records g.
Proof.
  unfold allocations_by_size.
  destruct (ms_fold (vmap_in_order g) [] (SSorted_nil _)) as [H1 H2].
  split; [done |]. rewrite H2, app_nil_r. unfold group_records.
  apply Permutation_map, vmap_in_order_perm.
Qed.

Lemma sorted_snoc {A} (R : relation A) l x :
  StronglySorted R l -> (forall y, y ∈ l -> R y x) -> StronglySorted R (l ++ [x]).
Proof.
  intros Hs Hx. apply StronglySorted_app_2; [| done | repeat constructor].
  intros x1 x2 H1 H2. apply list_elem_of_singleton in H2 as ->. by apply Hx.
Qed.

Lemma sorted_rev l : StronglySorted size_le l -> StronglySorted size_ge (rev l).
Proof.
  induction l as [| y l IH]; intros Hs; simpl; [constructor |].
  inversion Hs as [| ? ? Hs' Hf]; subst.
  apply sorted_snoc; [by apply IH |]. intros z Hz.
  apply list_elem_of_In, in_rev, list_elem_of_In in Hz.
  rewrite Forall_forall in Hf. by apply Hf.
Qed.

Lemma filter_below (m : Z) l :
  Forall (fun y => size y < m) l -> filter (fun it => m <= size it) l = [].
Proof.
  induction 1 as [| y l Hy _ IH]; [done |].
  rewrite filter_cons_False by lia. done.
Qed.

Lemma leaks_loop_proj P m l : forall oc sc out acc,
  StronglySorted size_ge l ->
  map (fun o => (leak_bytes o, leak_blocks o)) (leaks_loop P m l oc sc out acc).1.1.1 =
  map (fun o => (leak_bytes o, leak_blocks o)) acc ++
  map (fun it => (size it, count it)) (filter (fun it => m <= size it) l).
Proof.
  induction l as [| it l IH]; intros oc sc out acc Hs; simpl.
  - by rewrite app_nil_r.
  - inversion Hs as [| ? ? Hs' Hf]; subst.
    destruct (Z.leb_spec m (size it)).
    + pose proof (valid_callstack_alloc P oc (callstack_depth it) (callstack it)) as Hv.
      destruct (log_is_valid_callstack P oc _ _ true) as [[v oc1] qs].
      simpl in Hv. subst v.
      destruct (log_print_callstack P sc _ _) as [[tr sc1] txt].
      rewrite IH by done. rewrite filter_cons_True by done. simpl.
      rewrite map_app, <- app_assoc. done.
    + rewrite filter_cons_False by lia. rewrite filter_below; [by rewrite app_nil_r |].
      eapply Forall_impl; [exact Hf |]. unfold size_ge. intros; lia.
Qed.

Lemma leaks_loop_elem P m l : forall oc sc out acc o,
  o ∈ (leaks_loop P m l oc sc out acc).1.1.1 ->
  o ∈ acc \/ exists it sc', it ∈ l /\
    o = mk_leak (size it) (count it)
          (log_print_callstack P sc' (callstack_depth it) (callstack it)).1.1.
Proof.
  induction l as [| it l IH]; intros oc sc out acc o Ho; simpl in Ho; [by left |].
  destruct (m <=? size it); [| by left].
  destruct (log_is_valid_callstack P oc _ _ true) as [[[] oc1] qs].
  - destruct (log_print_callstack P sc _ _) as [[tr sc1] txt] eqn:Hp.
    apply IH in Ho as [Ho | (it' & sc' & Hit & ->)].
    + apply elem_of_app in Ho as [Ho | Ho]; [by left |].
      apply list_elem_of_singleton in Ho as ->. right. exists it, sc.
      split; [constructor |]. by rewrite Hp.
    + right. exists it', sc'. split; [by constructor |]. done.
  - apply IH in Ho as [Ho | (it' & sc' & Hit & ->)]; [by left |].
    right. exists it', sc'. split; [by constructor |]. done.
Qed.

(** The shape of [log_summary] when the output file opens. *)
Lemma log_summary_eq P st path :
  hu_log_file (cfg st) = Some path -> fopen_ok P path = true ->
  let g := fold_left group_step (map snd (map_in_order (allocations st)))
             (allocations_by_callstack st) in
  let res := leaks_loop P (hu_log_minleak (cfg st)) (rev (allocations_by_size g))
               (objfile_cache st) (symbol_cache st) [] [] in
  allocations_by_callstack (log_summary P st) = g /\
  out_file (log_summary P st) =
    out_file st ++ res.2 ++
    [OutJson (mk_report (ull (table_sum (allocations st)))
                (ull (Z.of_nat (length (map_to_list (allocations st)))))
                (allocinfo_total_allocs (ctr st)) (allocinfo_total_frees (ctr st))
                (allocinfo_total_alloc_bytes (ctr st)) (pid (cfg st)) res.1.1.1)].
Proof.
  intros Hf Ho. unfold log_summary. rewrite Hf, Ho. simpl.
  rewrite group_allocations_eq by (unfold ULL_MOD; lia).
  destruct (leaks_loop _ _ _ _ _ _ _) as [[[lk oc] sc] txt]. simpl.
  split; [done |]. unfold table_sum.
  rewrite !Z.add_0_l.
  rewrite (sum_Z_perm _ (map (fun kv => size kv.2) (map_to_list (allocations st))))
    by (apply Permutation_map, map_in_order_perm).
  rewrite (Permutation_length (map_in_order_perm (allocations st))). done.
Qed.

(** ** The validator's walk *)










(** * Claims *)

(** ** C1 *)

(** C1: for a sequence of enabled, non-reentrant [log_event] calls starting
    from the state after [log_init] and [log_enable(1)], in which no address
    is allocated twice, the current-bytes counter at the end equals the sum
    of the sizes of the allocations whose address is not freed later in the
    sequence; the counter is an [unsigned long long], so the equality is
    modulo 2^64, and exact when that sum is below 2^64. *)
Theorem current_bytes_live_sum (P : platform) (e : hu_env) (evs : list hu_call)
    (st' : hu_state) :
  NoDup (malloc_ptrs evs) ->
  log_events P evs (start_state P e) = Some st' ->
  (allocinfo_current_alloc_bytes (ctr st') = ull (sum_Z (map snd (live_allocs evs)))) /\
  (0 <= sum_Z (map snd (live_allocs evs)) < ULL_MOD ->
   allocinfo_current_alloc_bytes (ctr st') = sum_Z (map snd (live_allocs evs))).
Proof.
  intros Hnd Hrun.
  destruct (live_inv_run P evs (start_state P e) st' Hnd eq_refl ltac:(done)
              eq_refl eq_refl Hrun) as ((_ & Hcur) & _).
  split; [done |]. intros Hb. rewrite Hcur. unfold ull. by apply Z.mod_small.
Qed.

Lemma current_bytes_live_sum_witness :
  NoDup (malloc_ptrs c1_events) /\
  exists st', log_events demo_platform c1_events (start_state demo_platform demo_env) = Some st' /\
    allocinfo_current_alloc_bytes (ctr st') = 250.
Proof.
  assert (NoDup (malloc_ptrs c1_events)) as Hnd
    by (apply (bool_decide_unpack _); vm_compute; reflexivity).
  split; [exact Hnd |].
  eexists. split; [vm_compute; reflexivity |].
  rewrite (proj1 (current_bytes_live_sum demo_platform demo_env c1_events _ Hnd
                    ltac:(vm_compute; reflexivity))).
  vm_compute. reflexivity.
Defined.

(** ** C2 *)

(** C2 (claim as written): on every enabled call the counter is
    incremented at entry, and a nested call decrements it again on exit.
    A nested call, which finds the counter at 1, leaves it at 1 on entry:
    it neither increments nor (later) decrements it. *)
Lemma reentrancy_counter_counterexample :
  let st := set_callcount 1 (start_state demo_platform demo_env) in
  logging_enabled st <> 0 /\
  callcount (log_event_enter st).2 = 1 /\
  callcount (log_event_enter st).2 <> callcount st + 1.
Proof. vm_compute. split; [discriminate | split; [reflexivity | discriminate]]. Qed.

(** C2 (amended): for an enabled call, when the shared counter is already
    taken the call changes nothing (no bookkeeping, counter untouched);
    when it is free the call takes it (0 to 1), does exactly its own
    bookkeeping whatever allocator calls that bookkeeping makes, and gives
    the counter back (1 to 0). *)
Theorem reentrancy_gate (P : platform) ev p s (stack : list Z)
    (nested : list hu_call) (st : hu_state) :
  logging_enabled st <> 0 ->
  (callcount st <> 0 ->
   log_event_enter st = (true, st) /\
   log_event P (log_call ev p s stack nested) st = Some st) /\
  (callcount st = 0 ->
   log_event_enter st = (false, set_callcount 1 st) /\
   log_event P (log_call ev p s stack nested) st = log_event_body P ev p s stack st /\
   (forall st', log_event_body P ev p s stack st = Some st' -> callcount st' = 0)).
Proof.
  intros He. split.
  - intros Hc. split.
    + unfold log_event_enter. by rewrite (proj2 (Z.eqb_neq _ _) Hc).
    + by apply log_event_nested.
  - intros Hc. split; [| split].
    + unfold log_event_enter. rewrite Hc. done.
    + by apply log_event_top.
    + intros st' Hb. destruct (log_event_body_keeps _ _ _ _ _ _ _ Hb) as [-> _]. done.
Qed.

Lemma reentrancy_gate_witness :
  logging_enabled (start_state demo_platform demo_env) <> 0 /\
  log_event demo_platform
    (log_call EVENT_MALLOC 1000 100 [1; 2] [log_call EVENT_MALLOC 5 3 [] []])
    (start_state demo_platform demo_env) =
  log_event_body demo_platform EVENT_MALLOC 1000 100 [1; 2]
    (start_state demo_platform demo_env).
Proof.
  assert (logging_enabled (start_state demo_platform demo_env) <> 0) as He
    by (vm_compute; discriminate).
  split; [exact He |].
  apply (proj1 (proj2 (proj2 (reentrancy_gate demo_platform EVENT_MALLOC 1000 100 [1; 2]
                     [log_call EVENT_MALLOC 5 3 [] []] _ He) eq_refl))).
Defined.

(** ** C3 *)

(** C3 (claim as written) fails when the output file cannot be opened:
    [HU_FREE=1], a deallocation of the untracked 3000 whose stack the
    validator accepts, and [fopen] failing: nothing is written. *)
Lemma untracked_free_counterexample :
  let st := start_state closed_platform demo_env in
  let c := log_call EVENT_FREE 3000 0 [1; 2] [] in
  logging_enabled st <> 0 /\ callcount st = 0 /\
  allocations st !! 3000 = None /\ hu_log_free (cfg st) = true /\
  (log_is_valid_callstack closed_platform (objfile_cache st) 2 [1; 2] false).1.1 = true /\
  option_map out_file (log_event closed_platform c st) = Some [].
Proof. vm_compute. repeat split; discriminate. Qed.

(** C3 (amended): an enabled, reentrant deallocation changes nothing. An
    enabled, non-reentrant deallocation of an untracked pointer, with an
    output file configured, keeps the table and the current-bytes counter,
    adds one to total-frees, and appends to the file exactly the note
    [" Invalid deallocation at:"] and an empty line when invalid-free
    tracking is on, the validator accepts the freshly captured stack and the
    file opens for appending; otherwise it writes nothing. *)
Theorem untracked_free_effect (P : platform) p s (stack : list Z)
    (nested : list hu_call) (st : hu_state) (path : string) :
  logging_enabled st <> 0 ->
  (callcount st <> 0 ->
   log_event P (log_call EVENT_FREE p s stack nested) st = Some st) /\
  (callcount st = 0 ->
   allocations st !! p = None -> hu_log_file (cfg st) = Some path ->
   exists st', log_event P (log_call EVENT_FREE p s stack nested) st = Some st' /\
    allocations st' = allocations st /\
    allocinfo_current_alloc_bytes (ctr st') = allocinfo_current_alloc_bytes (ctr st) /\
    allocinfo_total_frees (ctr st') = ull (allocinfo_total_frees (ctr st) + 1) /\
    out_file st' = out_file st ++
      (if hu_log_free (cfg st) &&
          (log_is_valid_callstack P (objfile_cache st)
             (Z.of_nat (length (backtrace stack))) (backtrace stack) false).1.1 &&
          fopen_ok P path
       then invalid_dealloc_text else [])).
Proof.
  intros He. split; [intros Hc; by apply log_event_nested |].
  intros Hc Ha Hf. rewrite log_event_top by done.
  rewrite (body_free_absent_eq P p s stack st path Ha Hf).
  eexists. split; [reflexivity |]. simpl.
  destruct (hu_log_free (cfg st)); simpl; [| by rewrite app_nil_r].
  destruct (log_is_valid_callstack P _ _ _ false) as [[[] oc] qs]; simpl;
    [| by rewrite app_nil_r].
  destruct (fopen_ok P path); simpl; [done | by rewrite app_nil_r].
Qed.

Lemma untracked_free_effect_witness :
  let st := start_state demo_platform demo_env in
  logging_enabled st <> 0 /\ callcount st = 0 /\ allocations st !! 3000 = None /\
  hu_log_file (cfg st) = Some "out.json"%string /\
  exists st', log_event demo_platform (log_call EVENT_FREE 3000 0 [1; 2] []) st = Some st' /\
    out_file st' = invalid_dealloc_text.
Proof.
  intros st.
  assert (logging_enabled st <> 0) as He by (vm_compute; discriminate).
  assert (callcount st = 0) as Hc by reflexivity.
  assert (allocations st !! 3000 = None) as Ha by reflexivity.
  assert (hu_log_file (cfg st) = Some "out.json"%string) as Hf by reflexivity.
  split; [exact He | split; [exact Hc | split; [exact Ha | split; [exact Hf |]]]].
  destruct (proj2 (untracked_free_effect demo_platform 3000 0 [1; 2] [] st _ He) Hc Ha Hf)
    as (st' & Hr & _ & _ & _ & Ho).
  exists st'. split; [exact Hr |]. rewrite Ho. vm_compute. reflexivity.
Defined.

(** ** C9 *)

(** C9 (claim as written): every enabled deallocation of an untracked
    pointer is counted in total-frees. A deallocation made by the logger's
    own bookkeeping (here, freeing the untracked 3000 while a top-level
    allocation is recorded) is enabled but not counted. *)
Lemma invalid_free_counted_counterexample :
  let st := start_state demo_platform demo_env in
  allocations st !! 3000 = None /\
  option_map (fun st' => (allocinfo_total_frees (ctr st'), allocinfo_total_allocs (ctr st')))
    (log_event demo_platform
       (log_call EVENT_MALLOC 1000 100 [1; 2] [log_call EVENT_FREE 3000 0 [1; 2] []]) st) =
  Some (0, 1).
Proof. vm_compute. split; reflexivity. Qed.

(** C9 (amended): an enabled deallocation of an untracked pointer always
    completes, under every configuration except the one where no output
    file is configured and invalid-free tracking is on (left out here). A
    reentrant one changes nothing and is not counted. A non-reentrant one
    adds one to total-frees and changes the output file only when
    invalid-free tracking is on and the validator accepts the stack. *)
Theorem untracked_free_completes (P : platform) p s (stack : list Z)
    (nested : list hu_call) (st : hu_state) :
  logging_enabled st <> 0 ->
  allocations st !! p = None ->
  hu_log_file (cfg st) <> None \/ hu_log_free (cfg st) = false ->
  (callcount st <> 0 ->
   log_event P (log_call EVENT_FREE p s stack nested) st = Some st) /\
  (callcount st = 0 ->
   exists st', log_event P (log_call EVENT_FREE p s stack nested) st = Some st' /\
     allocinfo_total_frees (ctr st') = ull (allocinfo_total_frees (ctr st) + 1) /\
     (out_file st' <> out_file st ->
      hu_log_free (cfg st) = true /\
      (log_is_valid_callstack P (objfile_cache st)
         (Z.of_nat (length (backtrace stack))) (backtrace stack) false).1.1 = true)).
Proof.
  intros He Ha Hcfg. split; [by apply log_event_nested |].
  intros Hc. rewrite log_event_top by done.
  destruct (hu_log_file (cfg st)) as [path |] eqn:Hf.
  - rewrite (body_free_absent_eq P p s stack st path Ha Hf).
    eexists. split; [reflexivity |].
    destruct (hu_log_free (cfg st)); simpl; [| split; [done | intros Hne; by exfalso]].
    destruct (log_is_valid_callstack P _ _ _ false) as [[[] oc] qs]; simpl.
    + split; [by destruct (fopen_ok P path) | done].
    + split; [done | intros Hne; by exfalso].
  - destruct Hcfg as [Hcfg | Hfree]; [done |].
    unfold log_event_body. rewrite Ha, Hfree. simpl.
    eexists. split; [reflexivity |]. split; [done |]. simpl. intros Hne; by exfalso.
Qed.

Lemma untracked_free_completes_witness :
  let st := start_state demo_platform
              (mk_env None (Some "0"%string) None None 42) in
  logging_enabled st <> 0 /\ allocations st !! 3000 = None /\
  hu_log_free (cfg st) = false /\ callcount st = 0 /\
  exists st', log_event demo_platform (log_call EVENT_FREE 3000 0 [1; 2] []) st = Some st' /\
    allocinfo_total_frees (ctr st') = 1.
Proof.
  intros st.
  assert (logging_enabled st <> 0) as He by (vm_compute; discriminate).
  assert (allocations st !! 3000 = None) as Ha by reflexivity.
  assert (hu_log_free (cfg st) = false) as Hfree by reflexivity.
  assert (callcount st = 0) as Hc by reflexivity.
  split; [exact He | split; [exact Ha | split; [exact Hfree | split; [exact Hc |]]]].
  destruct (proj2 (untracked_free_completes demo_platform 3000 0 [1; 2] [] st He Ha
                     (or_intror Hfree)) Hc) as (st' & Hr & Hfr & _).
  exists st'. split; [exact Hr |]. rewrite Hfr. reflexivity.
Defined.

(** ** C10 *)

(** C10 (claim as written): an enabled allocation of a live address
    overwrites its entry. An allocation of the live 1000 made by the
    logger's own bookkeeping (nested in a top-level allocation of 2000)
    leaves the entry of 1000, of size 100, as it was. *)
Lemma double_alloc_counterexample :
  option_map (fun st => (size <$> allocations st !! 1000,
                         allocinfo_current_alloc_bytes (ctr st)))
    (log_events demo_platform
       [log_call EVENT_MALLOC 1000 100 [1; 2] [];
        log_call EVENT_MALLOC 2000 7 [1] [log_call EVENT_MALLOC 1000 50 [1] []]]
       (start_state demo_platform demo_env)) =
  Some (Some 100, 107).
Proof. vm_compute. reflexivity. Qed.

(** C10 (amended): when an enabled, non-reentrant allocation of [p] of
    size [s] finds a live entry [old] for [p], the entry is overwritten and
    the counter grows by [s] without [size old] being taken off: from then
    on, through every later sequence of calls that allocates no live
    address again (the deallocation of [p] among them, which takes off
    only the new size), the counter exceeds the table's sum by [size old]
    (modulo 2^64); so the invariant "counter = sum of the table" no longer
    holds when [size old] is non-zero modulo 2^64. An enabled, reentrant
    allocation changes nothing, so it overwrites no entry. *)
Theorem double_alloc_drift (P : platform) p s (stack : list Z)
    (nested : list hu_call) (st : hu_state) (old : hu_allocinfo) :
  logging_enabled st <> 0 ->
  (callcount st <> 0 ->
   log_event P (log_call EVENT_MALLOC p s stack nested) st = Some st) /\
  (callcount st = 0 ->
   allocations st !! p = Some old ->
   allocinfo_current_alloc_bytes (ctr st) = ull (table_sum (allocations st)) ->
   exists st1, log_event P (log_call EVENT_MALLOC p s stack nested) st = Some st1 /\
    allocations st1 =
      <[p := mk_allocinfo p (to_ssize s) (backtrace stack)
               (Z.of_nat (length (backtrace stack))) 1]> (allocations st) /\
    allocinfo_current_alloc_bytes (ctr st1) = ull (allocinfo_current_alloc_bytes (ctr st) + s) /\
    allocinfo_current_alloc_bytes (ctr st1) = ull (table_sum (allocations st1) + size old) /\
    (ull (size old) <> 0 ->
     allocinfo_current_alloc_bytes (ctr st1) <> ull (table_sum (allocations st1))) /\
    (forall s2 stack2 nested2,
       exists st2, log_event P (log_call EVENT_FREE p s2 stack2 nested2) st1 = Some st2 /\
         allocinfo_current_alloc_bytes (ctr st2) =
           ull (allocinfo_current_alloc_bytes (ctr st1) - to_ssize s)) /\
    (forall cs st2, run_no_double P cs st1 -> log_events P cs st1 = Some st2 ->
       allocinfo_current_alloc_bytes (ctr st2) = ull (table_sum (allocations st2) + size old))).
Proof.
  intros He. split; [intros Hc; by apply log_event_nested |].
  intros Hc Ha Hinv.
  rewrite log_event_top by done. rewrite body_malloc.
  eexists. split; [reflexivity |]. cbn -[log_event log_events table_sum run_no_double].
  set (a := mk_allocinfo p (to_ssize s) (backtrace stack)
              (Z.of_nat (length (backtrace stack))) 1).
  assert (table_sum (<[p:=a]> (allocations st)) + size old =
          table_sum (allocations st) + to_ssize s) as Hsum.
  { rewrite <- insert_delete_eq, table_sum_insert by apply lookup_delete_eq.
    rewrite (table_sum_delete _ _ _ Ha). simpl. lia. }
  assert (ull (allocinfo_current_alloc_bytes (ctr st) + s) =
          ull (table_sum (<[p:=a]> (allocations st)) + size old)) as Hcur.
  { rewrite Hsum, Hinv, ull_add_idemp. by rewrite ull_add_ssize. }
  split; [done |]. split; [done |]. split; [done |]. split.
  { intros Hnz. rewrite Hcur. by apply ull_add_nonzero. }
  split.
  - intros s2 stack2 nested2.
    match goal with
    | |- exists st2, log_event _ _ ?S = _ /\ _ =>
        assert (allocations S !! p = Some a) as Hp by (cbn; apply lookup_insert_eq);
        rewrite log_event_top by (cbn; done);
        destruct (body_free_found P p s2 stack2 S a Hp) as (st2 & Hb & _ & Hcu & _)
    end.
    exists st2. split; [exact Hb |]. rewrite Hcu. done.
  - intros cs st2 Hnd Hrun. eapply excess_run; [| | | exact Hnd | exact Hrun].
    + done.
    + done.
    + simpl. done.
Qed.

Lemma double_alloc_drift_witness :
  exists st1, log_event demo_platform (log_call EVENT_MALLOC 1000 50 [1] []) c10_state = Some st1 /\
    allocinfo_current_alloc_bytes (ctr st1) = ull (table_sum (allocations st1) + 100).
Proof.
  destruct (proj2 (double_alloc_drift demo_platform 1000 50 [1] [] c10_state
              (mk_allocinfo 1000 100 [1; 2] 2 1)
              ltac:(vm_compute; discriminate)) eq_refl
              ltac:(vm_compute; reflexivity) ltac:(vm_compute; reflexivity))
    as (st1 & Hr & _ & _ & Hx & _).
  exists st1. split; [exact Hr | exact Hx].
Defined.

(** ** C4 *)

(** C4: when the output file opens and [allocations_by_callstack] is still
    empty (the summary runs once), and every live record has count 1 (as
    [log_event] creates them), [log_summary] leaves for each call stack [k]
    an entry exactly when some live record was captured at [k]; that entry
    has key [k], its count is the number of live records captured at [k]
    and its size is the sum of their sizes. Records with different captured
    stacks thus never share an entry, and two records with the same stack
    give one entry with count 2 and the sum of both sizes. *)
Theorem summary_groups_by_callstack (P : platform) (st : hu_state) path (k : list Z) :
  hu_log_file (cfg st) = Some path -> fopen_ok P path = true ->
  allocations_by_callstack st = ∅ ->
  (forall p a, allocations st !! p = Some a -> count a = 1) ->
  let recs := filter (fun a => key_of a = k) (table_records (allocations st)) in
  match allocations_by_callstack (log_summary P st) !! k with
  | None => recs = []
  | Some r => recs <> [] /\ key_of r = k /\
              count r = Z.of_nat (length recs) /\ size r = sum_Z (map size recs)
  end.
Proof.
  intros Hf Ho Hg0 Hcnt recs.
  pose proof (log_summary_eq P st path Hf Ho) as H. cbv zeta in H.
  destruct H as [Hg _]. rewrite Hg, Hg0, group_fold, lookup_empty.
  assert (filter (fun a => key_of a = k) (map snd (map_in_order (allocations st))) ≡ₚ recs)
    as Hperm.
  { unfold recs, table_records. apply filter_Permutation.
    apply Permutation_map, map_in_order_perm. }
  destruct (filter (fun a => key_of a = k) (map snd (map_in_order (allocations st))))
    as [| a0 fl] eqn:Hfl.
  - by apply Permutation_nil.
  - assert (a0 ∈ recs) as Ha0 by (rewrite <- Hperm; constructor).
    assert (key_of a0 = k /\ count a0 = 1) as [Hk Hc].
    { unfold recs in Ha0. apply list_elem_of_filter in Ha0 as [Hk Hin].
      destruct (table_records_elem _ _ Hin) as [p Hp]. split; [done |]. by apply (Hcnt p). }
    split; [intros Hnil; rewrite Hnil in Hperm; symmetry in Hperm; by apply Permutation_nil in Hperm |].
    split; [by rewrite key_of_bump |].
    split.
    + unfold bump. simpl. rewrite <- (Permutation_length Hperm), Hc. simpl. lia.
    + unfold bump. simpl. rewrite <- (sum_Z_perm _ _ (Permutation_map size Hperm)).
      rewrite map_cons, sum_Z_cons. done.
Qed.

Lemma summary_groups_by_callstack_witness :
  match allocations_by_callstack (log_summary demo_platform c4_state) !! [1; 2; 3] with
  | None => False
  | Some r => count r = 2 /\ size r = 300
  end.
Proof.
  assert (map_Forall (fun _ a => count a = 1) (allocations c4_state)) as HF
    by (apply (bool_decide_unpack _); vm_compute; reflexivity).
  pose proof (summary_groups_by_callstack demo_platform c4_state "out.json"%string [1; 2; 3]
                ltac:(vm_compute; reflexivity) ltac:(vm_compute; reflexivity)
                ltac:(vm_compute; reflexivity)
                (fun p a H => map_Forall_lookup_1 _ _ p a HF H)) as H.
  cbv zeta in H. revert H.
  destruct (allocations_by_callstack (log_summary demo_platform c4_state) !! [1; 2; 3])
    as [r |]; intros H.
  - destruct H as (_ & _ & Hc & Hs). rewrite Hc, Hs. vm_compute. split; reflexivity.
  - vm_compute in H. discriminate.
Defined.

(** ** C5 *)

(** C5: when the output file opens, [log_summary] appends one report whose
    lost bytes are the sum of the sizes of all live records and whose lost
    blocks are their number (both as [unsigned long long], whatever the
    threshold), and whose leak entries are, as (bytes, blocks) pairs and up
    to order, exactly the grouped records of size at least [HU_MINLEAK]:
    a group below the threshold is absent and a group at the threshold is
    present. *)
Theorem summary_threshold (P : platform) (st : hu_state) path :
  hu_log_file (cfg st) = Some path -> fopen_ok P path = true ->
  exists txt rep,
    out_file (log_summary P st) = out_file st ++ txt ++ [OutJson rep] /\
    lost_bytes rep = ull (table_sum (allocations st)) /\
    lost_blocks rep = ull (Z.of_nat (length (map_to_list (allocations st)))) /\
    map (fun o => (leak_bytes o, leak_blocks o)) (leaks rep) ≡ₚ
    map (fun r => (size r, count r))
      (filter (fun r => hu_log_minleak (cfg st) <= size r)
         (group_records (allocations_by_callstack (log_summary P st)))).
Proof.
  intros Hf Ho.
  pose proof (log_summary_eq P st path Hf Ho) as H. cbv zeta in H.
  destruct H as [Hg Hout].
  eexists _, _. split; [exact Hout |]. cbn [lost_bytes lost_blocks leaks].
  split; [done | split; [done |]].
  destruct (allocations_by_size_spec
              (allocations_by_callstack (log_summary P st))) as [Hs Hp].
  rewrite <- Hg.
  rewrite leaks_loop_proj by (by apply sorted_rev). simpl.
  apply Permutation_map, filter_Permutation.
  rewrite <- Permutation_rev. exact Hp.
Qed.

Lemma summary_threshold_witness :
  exists txt rep,
    out_file (log_summary demo_platform c5_state) = out_file c5_state ++ txt ++ [OutJson rep] /\
    lost_bytes rep = 305 /\ lost_blocks rep = 3 /\
    map (fun o => (leak_bytes o, leak_blocks o)) (leaks rep) ≡ₚ [(300, 2)].
Proof.
  destruct (summary_threshold demo_platform c5_state "out.json"%string
              ltac:(vm_compute; reflexivity) ltac:(vm_compute; reflexivity))
    as (txt & rep & H1 & H2 & H3 & H4).
  exists txt, rep. split; [exact H1 |].
  split; [rewrite H2; vm_compute; reflexivity |].
  split; [rewrite H3; vm_compute; reflexivity |].
  rewrite H4. vm_compute. reflexivity.
Defined.

(** ** C6 *)



(** ** C7 *)

(** C7 (as stated, refuted): a leak whose captured stack is [10; 11; 12]
    (depth 3) is reported with the trace addresses [11; 12]: frame 0 is not
    printed although its index is at least [3 - 5]. *)
Lemma trace_window_counterexample :
  allocations c7_state !! 1000 = Some (mk_allocinfo 1000 100 [10; 11; 12] 3 1) /\
  exists rep, last (out_file (log_summary demo_platform c7_state)) = Some (OutJson rep) /\
    map (fun o => option_map (map fst) (leak_trace o)) (leaks rep) = [Some [11; 12]].
Proof.
  split; [vm_compute; reflexivity |].
  eexists. split; [vm_compute; reflexivity | vm_compute; reflexivity].
Qed.

(** C7: when the output file opens, every leak entry of the report comes
    from a grouped record [r] with its bytes and blocks, and when the
    record's depth [d] is positive its trace lists exactly the addresses of
    the frames [max 1 (d - 5)], ..., [d - 1] in increasing order: the last
    five frames, never frame 0. *)
Theorem summary_trace_window (P : platform) (st : hu_state) path :
  hu_log_file (cfg st) = Some path -> fopen_ok P path = true ->
  exists txt rep,
    out_file (log_summary P st) = out_file st ++ txt ++ [OutJson rep] /\
    forall o, o ∈ leaks rep ->
      exists r, r ∈ group_records (allocations_by_callstack (log_summary P st)) /\
        leak_bytes o = size r /\ leak_blocks o = count r /\
        (0 < callstack_depth r ->
         exists trace, leak_trace o = Some trace /\
           map fst trace =
           map (fun k => default 0 (callstack r !! k))
             (seq (trace_lo (callstack_depth r))
                  (Z.to_nat (callstack_depth r) - trace_lo (callstack_depth r)))).
Proof.
  intros Hf Ho.
  pose proof (log_summary_eq P st path Hf Ho) as H. cbv zeta in H.
  destruct H as [Hg Hout].
  eexists _, _. split; [exact Hout |]. cbn [leaks]. intros o Hin.
  apply leaks_loop_elem in Hin as [Hin | (it & sc' & Hit & ->)];
    [by apply not_elem_of_nil in Hin |].
  exists it. split.
  { destruct (allocations_by_size_spec
                (allocations_by_callstack (log_summary P st))) as [_ Hp].
    rewrite <- Hp, Hg. apply list_elem_of_In, in_rev, list_elem_of_In. exact Hit. }
  split; [done | split; [done |]]. intros Hd. cbn [leak_trace].
  destruct (print_window P sc' (callstack_depth it) (callstack it) Hd) as (tr & Htr & _ & Ha).
  exists tr. split; [exact Htr | exact Ha].
Qed.

Lemma summary_trace_window_witness :
  exists txt rep,
    out_file (log_summary demo_platform c7_state) = out_file c7_state ++ txt ++ [OutJson rep] /\
    forall o, o ∈ leaks rep -> option_map (map fst) (leak_trace o) = Some [11; 12].
Proof.
  destruct (summary_trace_window demo_platform c7_state "out.json"%string
              ltac:(vm_compute; reflexivity) ltac:(vm_compute; reflexivity))
    as (txt & rep & H1 & H2).
  exists txt, rep. split; [exact H1 |]. intros o Ho.
  destruct (H2 o Ho) as (r & Hr & _ & _ & Ht).
  assert (group_records (allocations_by_callstack (log_summary demo_platform c7_state)) =
          [mk_allocinfo 1000 100 [10; 11; 12] 3 1]) as Eg by (vm_compute; reflexivity).
  rewrite Eg in Hr. apply list_elem_of_singleton in Hr as ->.
  destruct (Ht ltac:(vm_compute; reflexivity)) as (tr & -> & Hm).
  simpl. rewrite Hm. vm_compute. reflexivity.
Defined.

(** ** C8 *)

(** C8: for an address whose symbol [dladdr] cannot resolve and that is not
    cached with another name, [addr_to_symbol] returns the empty string and
    caches it; after any further calls of [addr_to_symbol], a call for the
    same address returns the cached empty string and queries nothing. *)
Theorem unresolved_symbol_cached (P : platform) (sc : gmap Z string) (a : Z) :
  dladdr_sym P a = None -> sc !! a = None \/ sc !! a = Some ""%string ->
  let '(sym, sc', qs) := addr_to_symbol P sc a in
  sym = ""%string /\ sc' !! a = Some ""%string /\
  forall bs, addr_to_symbol P (resolve_seq P sc' bs) a = (""%string, resolve_seq P sc' bs, []).
Proof.
  intros Hs [Hc | Hc].
  - rewrite (addr_to_symbol_unresolved P sc a Hs Hc).
    split; [done | split; [apply lookup_insert_eq |]].
    intros bs. apply addr_to_symbol_cached, resolve_seq_keeps, lookup_insert_eq.
  - rewrite (addr_to_symbol_cached P sc a _ Hc).
    split; [done | split; [done |]].
    intros bs. apply addr_to_symbol_cached, resolve_seq_keeps, Hc.
Qed.

Lemma unresolved_symbol_cached_witness :
  dladdr_sym demo_platform 9 = None /\
  let '(sym, sc', qs) := addr_to_symbol demo_platform ∅ 9 in
  sym = ""%string /\ sc' !! 9 = Some ""%string /\
  forall bs, addr_to_symbol demo_platform (resolve_seq demo_platform sc' bs) 9 =
             (""%string, resolve_seq demo_platform sc' bs, []).
Proof.
  split; [reflexivity |].
  apply (unresolved_symbol_cached demo_platform ∅ 9); [reflexivity | left; reflexivity].
Defined.

(** * Further properties of [hulog.cpp] *)

(** ** [HU_MINLEAK]: [strtoll] of a decimal text *)

Lemma digit_value_char d : 0 <= d < 10 -> digit_value (digit_char d) = Some d.
Proof.
  intros Hd. unfold digit_value, digit_char.
  rewrite Ascii.nat_ascii_embedding by lia.
  replace ((48 <=? 48 + Z.to_nat d)%nat && (48 + Z.to_nat d <=? 57)%nat) with true
    by (symmetry; apply andb_true_intro; split; apply Nat.leb_le; lia).
  f_equal. lia.
Qed.

Lemma read_dec_digits f : forall n acc v,
  0 <= n < 10 ^ Z.of_nat f ->
  exists k : nat, read_digits (dec_digits f n acc) v = read_digits acc (v * 10 ^ Z.of_nat k + n).
Proof.
  induction f as [| f IH]; intros n acc v Hn.
  - exists 0%nat. simpl in Hn. cbn [dec_digits].
    replace (v * 10 ^ Z.of_nat 0 + n) with v by (simpl; lia). done.
  - cbn [dec_digits].
    assert (0 <= n mod 10 < 10) as Hm by (apply Z.mod_pos_bound; lia).
    destruct (Z.ltb_spec n 10).
    + exists 1%nat. cbn [read_digits]. rewrite digit_value_char by done.
      rewrite Z.mod_small by lia. f_equal; lia.
    + assert (0 <= n / 10 < 10 ^ Z.of_nat f) as Hq.
      { split; [apply Z.div_pos; lia |].
        apply Z.div_lt_upper_bound; [lia |].
        rewrite Nat2Z.inj_succ, Z.pow_succ_r in Hn by lia. lia. }
      destruct (IH (n / 10) (String (digit_char (n mod 10)) acc) v Hq) as [k Hk].
      exists (S k). rewrite Hk. cbn [read_digits]. rewrite digit_value_char by done.
      f_equal. rewrite Nat2Z.inj_succ, Z.pow_succ_r by lia.
      pose proof (Z.div_mod n 10 ltac:(lia)). nia.
Qed.

Lemma dec_digits_head f : forall n acc,
  (0 < f)%nat -> 0 <= n ->
  exists d rest, 0 <= d < 10 /\ dec_digits f n acc = String (digit_char d) rest.
Proof.
  induction f as [| f IH]; intros n acc Hf Hn; [lia |]. cbn [dec_digits].
  assert (0 <= n mod 10 < 10) as Hm by (apply Z.mod_pos_bound; lia).
  destruct (n <? 10); [by exists (n mod 10), acc |].
  destruct f as [| f]; [by exists (n mod 10), acc |].
  apply IH; [lia | apply Z.div_pos; lia].
Qed.

Lemma strtoll_digit d rest :
  0 <= d < 10 ->
  strtoll (String (digit_char d) rest) =
  Z.max LLONG_MIN (Z.min LLONG_MAX (read_digits (String (digit_char d) rest) 0)).
Proof.
  intros Hd.
  assert (d = 0 \/ d = 1 \/ d = 2 \/ d = 3 \/ d = 4 \/ d = 5 \/ d = 6 \/ d = 7 \/
          d = 8 \/ d = 9) as Hc by lia.
  repeat destruct Hc as [-> | Hc]; [reflexivity .. |]. subst d. reflexivity.
Qed.

Lemma strtoll_dec n :
  0 <= n < 10 ^ 64 ->
  strtoll (dec_digits 64 n EmptyString) = Z.max LLONG_MIN (Z.min LLONG_MAX n).
Proof.
  intros Hn.
  destruct (read_dec_digits 64 n EmptyString 0 Hn) as [k Hk].
  assert (read_digits (dec_digits 64 n EmptyString) 0 = n) as Hr
    by (rewrite Hk; cbn [read_digits]; lia).
  destruct (dec_digits_head 64 n EmptyString ltac:(lia) ltac:(lia)) as (d & rest & Hd & Heq).
  rewrite Heq in Hr |- *. rewrite strtoll_digit by done. rewrite Hr. done.
Qed.

(** X1: when [HU_MINLEAK] holds the decimal text of an integer [z] (as
    [std::to_string] prints it), [log_init] sets the threshold to [z],
    saturated to the range of [long long] as [strtoll] does. *)
Theorem log_init_minleak_decimal (P : platform) (e : hu_env) (z : Z) :
  - 10 ^ 64 < z < 10 ^ 64 ->
  env_HU_MINLEAK e = Some (std_to_string z) ->
  hu_log_minleak (cfg (log_init P e).1) = Z.max LLONG_MIN (Z.min LLONG_MAX z).
Proof.
  intros Hz He. cbn [log_init fst cfg hu_log_minleak]. rewrite He. unfold std_to_string.
  destruct (Z.ltb_spec z 0).
  - change (strtoll (String "-" (dec_digits 64 (- z) EmptyString)))
      with (Z.max LLONG_MIN (Z.min LLONG_MAX (- read_digits (dec_digits 64 (- z) EmptyString) 0))).
    destruct (read_dec_digits 64 (- z) EmptyString 0 ltac:(lia)) as [k Hk].
    rewrite Hk. cbn [read_digits]. do 2 f_equal. lia.
  - apply strtoll_dec. lia.
Qed.

Lemma log_init_minleak_decimal_witness :
  hu_log_minleak (cfg (log_init demo_platform
    (mk_env None None None (Some (std_to_string (-4096))) 1)).1) = -4096.
Proof.
  rewrite (log_init_minleak_decimal demo_platform
             (mk_env None None None (Some (std_to_string (-4096))) 1) (-4096)
             ltac:(lia) eq_refl).
  vm_compute. reflexivity.
Defined.

(** ** Every call either leaves the state alone or runs the bookkeeping *)

Lemma log_event_cases P ev p s stack nested st st' :
  log_event P (log_call ev p s stack nested) st = Some st' ->
  st' = st \/
  (logging_enabled st <> 0 /\ callcount st = 0 /\ log_event_body P ev p s stack st = Some st').
Proof.
  destruct (decide (logging_enabled st = 0)) as [He | He].
  - rewrite log_event_unfold, He. simpl. intros [= <-]. by left.
  - destruct (decide (callcount st = 0)) as [Hc | Hc].
    + rewrite log_event_top by done. intros Hb. by right.
    + rewrite log_event_nested by done. intros [= <-]. by left.
Qed.

Lemma log_events_ind (Q : hu_state -> Prop) P cs st st' :
  (forall ev p s stack st1 st2, log_event_body P ev p s stack st1 = Some st2 ->
     Q st1 -> Q st2) ->
  Q st -> log_events P cs st = Some st' -> Q st'.
Proof.
  intros Hstep. revert st. induction cs as [| [ev p s stack nested] cs IH]; intros st Hq Hrun.
  - by injection Hrun as <-.
  - cbn [log_events] in Hrun.
    destruct (log_event P _ st) as [st1 |] eqn:H1; simpl in Hrun; [| done].
    apply (IH st1); [| done].
    destruct (log_event_cases P ev p s stack nested st st1 H1) as [-> | (_ & _ & Hb)];
      [done |]. by apply (Hstep ev p s stack st).
Qed.

Lemma body_free_table P p s stack st st' :
  log_event_body P EVENT_FREE p s stack st = Some st' ->
  allocations st' = delete p (allocations st) \/ allocations st' = allocations st.
Proof.
  destruct (allocations st !! p) as [a |] eqn:Ha.
  - destruct (body_free_found P p s stack st a Ha) as (st1 & Hb & Hal & _).
    rewrite Hb. intros [= <-]. by left.
  - intros Hb. right. by apply (body_free_absent P p s stack st st' Ha Hb).
Qed.

Lemma body_table_wf P ev p s stack st st' :
  log_event_body P ev p s stack st = Some st' ->
  table_wf (allocations st) -> table_wf (allocations st').
Proof.
  intros Hb Hwf. destruct ev.
  - rewrite body_malloc in Hb. injection Hb as <-. cbn.
    apply map_Forall_insert_2; [| done]. cbn.
    unfold backtrace, MAX_CALL_STACK. rewrite length_take. lia.
  - destruct (body_free_table P p s stack st st' Hb) as [-> | ->]; [| done].
    by apply map_Forall_delete.
Qed.

(** X3: every record of the allocation table is stored under its own
    pointer, has count 1, and holds a captured stack of at most
    [MAX_CALL_STACK] frames whose length is its [callstack_depth]; every
    sequence of calls keeps this. *)
Theorem table_wf_preserved (P : platform) (cs : list hu_call) (st st' : hu_state) :
  table_wf (allocations st) -> log_events P cs st = Some st' -> table_wf (allocations st').
Proof.
  apply (log_events_ind (fun st => table_wf (allocations st))).
  intros ev p s stack st1 st2 Hb. exact (body_table_wf P ev p s stack st1 st2 Hb).
Qed.

Lemma table_wf_preserved_witness :
  exists st', log_events demo_platform c1_events (start_state demo_platform demo_env) = Some st' /\
    table_wf (allocations st').
Proof.
  destruct (log_events demo_platform c1_events (start_state demo_platform demo_env))
    as [st' |] eqn:Hr; [| vm_compute in Hr; discriminate].
  exists st'. split; [done |].
  apply (table_wf_preserved demo_platform c1_events (start_state demo_platform demo_env) st');
    [apply (bool_decide_unpack _); vm_compute; reflexivity | exact Hr].
Defined.

(** ** The peak counter *)

Lemma body_peak P ev p s stack st st' :
  log_event_body P ev p s stack st = Some st' ->
  allocinfo_peak_alloc_bytes (ctr st) <= allocinfo_peak_alloc_bytes (ctr st').
Proof.
  intros Hb. destruct ev.
  - rewrite body_malloc in Hb. injection Hb as <-. cbn.
    destruct (Z.ltb_spec (allocinfo_peak_alloc_bytes (ctr st))
                (ull (allocinfo_current_alloc_bytes (ctr st) + s))); lia.
  - revert Hb. destruct st as [c le cc ct al sc oc g out].
    unfold log_event_body. cbn [allocations ctr cfg].
    destruct (al !! p); simpl; [intros [= <-]; simpl; lia |].
    destruct (hu_log_free c); simpl; [| intros [= <-]; simpl; lia].
    destruct (log_is_valid_callstack P oc _ _ false) as [[[] oc'] qs]; simpl;
      [| intros [= <-]; simpl; lia].
    destruct (hu_log_file c) as [path |]; simpl; [| done].
    destruct (fopen_ok P path); simpl; intros [= <-]; simpl; lia.
Qed.

(** X4: the peak counter never decreases over any sequence of calls. *)
Theorem peak_monotone (P : platform) (cs : list hu_call) (st st' : hu_state) :
  log_events P cs st = Some st' ->
  allocinfo_peak_alloc_bytes (ctr st) <= allocinfo_peak_alloc_bytes (ctr st').
Proof.
  intros Hrun.
  apply (log_events_ind
           (fun st1 => allocinfo_peak_alloc_bytes (ctr st) <= allocinfo_peak_alloc_bytes (ctr st1))
           P cs st st'); [| lia | done].
  intros ev p s stack st1 st2 Hb H. pose proof (body_peak P ev p s stack st1 st2 Hb). lia.
Qed.

Lemma peak_monotone_witness :
  exists st', log_events demo_platform c1_events (start_state demo_platform demo_env) = Some st' /\
    0 <= allocinfo_peak_alloc_bytes (ctr st').
Proof.
  destruct (log_events demo_platform c1_events (start_state demo_platform demo_env))
    as [st' |] eqn:Hr; [| vm_compute in Hr; discriminate].
  exists st'. split; [done |].
  exact (peak_monotone demo_platform c1_events (start_state demo_platform demo_env) st' Hr).
Defined.

(** ** The running totals *)

Lemma body_free_counts P p s stack st st' :
  log_event_body P EVENT_FREE p s stack st = Some st' ->
  allocinfo_total_allocs (ctr st') = allocinfo_total_allocs (ctr st) /\
  allocinfo_total_alloc_bytes (ctr st') = allocinfo_total_alloc_bytes (ctr st) /\
  allocinfo_total_frees (ctr st') = ull (allocinfo_total_frees (ctr st) + 1).
Proof.
  destruct st as [c le cc ct al sc oc g out].
  unfold log_event_body. cbn [allocations ctr cfg].
  destruct (al !! p); simpl; [by intros [= <-] |].
  destruct (hu_log_free c); simpl; [| by intros [= <-]].
  destruct (log_is_valid_callstack P oc _ _ false) as [[[] oc'] qs]; simpl; [| by intros [= <-]].
  destruct (hu_log_file c) as [path |]; simpl; [| done].
  destruct (fopen_ok P path); simpl; by intros [= <-].
Qed.

Lemma counters_run P cs : forall st st' a b f,
  callcount st = 0 -> logging_enabled st <> 0 ->
  allocinfo_total_allocs (ctr st) = ull a ->
  allocinfo_total_alloc_bytes (ctr st) = ull b ->
  allocinfo_total_frees (ctr st) = ull f ->
  log_events P cs st = Some st' ->
  allocinfo_total_allocs (ctr st') = ull (a + Z.of_nat (length (omap malloc_of cs))) /\
  allocinfo_total_alloc_bytes (ctr st') = ull (b + sum_Z (map snd (omap malloc_of cs))) /\
  allocinfo_total_frees (ctr st') =
    ull (f + Z.of_nat (length (filter (fun c => is_free_call c = true) cs))).
Proof.
  induction cs as [| [ev p s stack nested] cs IH]; intros st st' a b f Hc He Ha Hb Hf Hrun.
  - injection Hrun as <-. rewrite !Z.add_0_r. done.
  - cbn [log_events] in Hrun. rewrite log_event_top in Hrun by done.
    destruct (log_event_body P ev p s stack st) as [st1 |] eqn:H1; simpl in Hrun; [| done].
    destruct (log_event_body_keeps P ev p s stack st st1 H1) as (Hc1 & He1 & _).
    destruct ev.
    + rewrite body_malloc in H1. injection H1 as <-.
      match type of Hrun with log_events _ _ ?S = _ =>
      destruct (IH S st' (a + 1) (b + s) f ltac:(done) ltac:(done)
                  ltac:(cbn [ctr set_ctr set_allocations allocinfo_total_allocs allocinfo_total_alloc_bytes allocinfo_total_frees]; by rewrite Ha, ull_add_idemp)
                  ltac:(cbn [ctr set_ctr set_allocations allocinfo_total_allocs allocinfo_total_alloc_bytes allocinfo_total_frees]; by rewrite Hb, ull_add_idemp)
                  ltac:(cbn [ctr set_ctr set_allocations allocinfo_total_allocs allocinfo_total_alloc_bytes allocinfo_total_frees]; done) Hrun) as (Ha' & Hb' & Hf')
      end.
      cbn [omap list_omap malloc_of length map].
      rewrite filter_cons_False by done.
      rewrite Ha', Hb', Hf', sum_Z_cons. cbn [fst snd]. split; [| split]; f_equal; lia.
    + destruct (body_free_counts P p s stack st st1 H1) as (Ha1 & Hb1 & Hf1).
      destruct (IH st1 st' a b (f + 1) ltac:(congruence) ltac:(congruence)
                  ltac:(congruence) ltac:(congruence)
                  ltac:(by rewrite Hf1, Hf, ull_add_idemp) Hrun) as (Ha' & Hb' & Hf').
      cbn [omap list_omap malloc_of].
      rewrite filter_cons_True by done.
      rewrite Ha', Hb', Hf'. cbn [length]. split; [| split]; f_equal; lia.
Qed.

(** X5: from the state after [log_init] and [log_enable(1)], the totals of
    allocations, allocated bytes and deallocations count exactly the
    top-level calls of the sequence (modulo 2^64): the allocator calls made
    during the bookkeeping are not counted. *)
Theorem counters_count_calls (P : platform) (e : hu_env) (cs : list hu_call) (st' : hu_state) :
  log_events P cs (start_state P e) = Some st' ->
  allocinfo_total_allocs (ctr st') = ull (Z.of_nat (length (omap malloc_of cs))) /\
  allocinfo_total_alloc_bytes (ctr st') = ull (sum_Z (map snd (omap malloc_of cs))) /\
  allocinfo_total_frees (ctr st') =
    ull (Z.of_nat (length (filter (fun c => is_free_call c = true) cs))).
Proof.
  intros Hrun.
  exact (counters_run P cs (start_state P e) st' 0 0 0 eq_refl ltac:(done)
           eq_refl eq_refl eq_refl Hrun).
Qed.

Lemma counters_count_calls_witness :
  exists st', log_events demo_platform c1_events (start_state demo_platform demo_env) = Some st' /\
    allocinfo_total_allocs (ctr st') = 3 /\ allocinfo_total_alloc_bytes (ctr st') = 350 /\
    allocinfo_total_frees (ctr st') = 2.
Proof.
  destruct (log_events demo_platform c1_events (start_state demo_platform demo_env))
    as [st' |] eqn:Hr; [| vm_compute in Hr; discriminate].
  exists st'. split; [done |].
  destruct (counters_count_calls demo_platform demo_env c1_events st' Hr) as (H1 & H2 & H3).
  rewrite H1, H2, H3. vm_compute. split; [| split]; reflexivity.
Defined.

(** ** An allocation followed by its deallocation *)

Lemma body_free_found_out P p s stack st a st' :
  allocations st !! p = Some a ->
  log_event_body P EVENT_FREE p s stack st = Some st' ->
  out_file st' = out_file st /\ callcount st' = callcount st /\
  logging_enabled st' = logging_enabled st.
Proof. intros H. unfold log_event_body. rewrite H. simpl. by intros [= <-]. Qed.

(** X6: for a pointer with no live record, an enabled top-level allocation
    followed by the top-level deallocation of the same pointer restores the
    table and current-bytes, writes nothing, and counts one allocation and
    one deallocation. *)
Theorem malloc_free_roundtrip (P : platform) p s stack1 nested1 s2 stack2 nested2
    (st st' : hu_state) :
  logging_enabled st <> 0 -> callcount st = 0 -> allocations st !! p = None ->
  0 <= allocinfo_current_alloc_bytes (ctr st) < ULL_MOD ->
  log_events P [log_call EVENT_MALLOC p s stack1 nested1;
                log_call EVENT_FREE p s2 stack2 nested2] st = Some st' ->
  allocations st' = allocations st /\
  allocinfo_current_alloc_bytes (ctr st') = allocinfo_current_alloc_bytes (ctr st) /\
  allocinfo_total_allocs (ctr st') = ull (allocinfo_total_allocs (ctr st) + 1) /\
  allocinfo_total_frees (ctr st') = ull (allocinfo_total_frees (ctr st) + 1) /\
  out_file st' = out_file st.
Proof.
  intros He Hc Hp Hcur Hrun.
  cbn [log_events] in Hrun. rewrite log_event_top in Hrun by done.
  rewrite body_malloc in Hrun. cbn [mbind option_bind] in Hrun.
  match type of Hrun with
  | context [log_event _ _ ?S] =>
      rewrite log_event_top in Hrun by (cbn; done);
      assert (allocations S !! p = Some (mk_allocinfo p (to_ssize s) (backtrace stack1)
                (Z.of_nat (length (backtrace stack1))) 1)) as HS by (cbn; apply lookup_insert_eq);
      destruct (body_free_found P p s2 stack2 S _ HS) as (st2 & Hb & Hal & Hcu & _);
      destruct (body_free_counts P p s2 stack2 S st2 Hb) as (Ha2 & _ & Hf2);
      destruct (body_free_found_out P p s2 stack2 S _ st2 HS Hb) as (Ho2 & _ & _)
  end.
  rewrite Hb in Hrun. injection Hrun as <-.
  rewrite Hal, Hcu, Ha2, Hf2, Ho2. cbn.
  split; [by apply delete_insert_id |].
  split; [| done].
  rewrite ull_sub_idemp, ull_sub_ssize. unfold ull.
  replace (allocinfo_current_alloc_bytes (ctr st) + s - s)
    with (allocinfo_current_alloc_bytes (ctr st)) by lia.
  by apply Z.mod_small.
Qed.

Lemma malloc_free_roundtrip_witness :
  exists st', log_events demo_platform
    [log_call EVENT_MALLOC 5000 64 [1; 2] [log_call EVENT_MALLOC 6 1 [] []];
     log_call EVENT_FREE 5000 0 [3] []] c10_state = Some st' /\
    allocations st' = allocations c10_state.
Proof.
  destruct (log_events demo_platform
    [log_call EVENT_MALLOC 5000 64 [1; 2] [log_call EVENT_MALLOC 6 1 [] []];
     log_call EVENT_FREE 5000 0 [3] []] c10_state) as [st' |] eqn:Hr;
    [| vm_compute in Hr; discriminate].
  exists st'. split; [done |].
  exact (proj1 (malloc_free_roundtrip demo_platform 5000 64 [1; 2]
                  [log_call EVENT_MALLOC 6 1 [] []] 0 [3] [] c10_state st'
                  ltac:(vm_compute; intros; discriminate) ltac:(vm_compute; reflexivity)
                  ltac:(vm_compute; reflexivity) ltac:(vm_compute; split; [intros; discriminate | reflexivity]) Hr)).
Defined.

(** ** What [log_summary] leaves alone *)

Lemma valid_walk_keeps P cs i : forall objfile oc qs a v,
  oc !! a = Some v -> (valid_walk P cs i objfile oc qs).1.2 !! a = Some v.
Proof.
  induction i as [| j IH]; intros objfile oc qs a v H; cbn [valid_walk]; [done |].
  destruct (oc !! default 0 (cs !! S j)) as [f |] eqn:Hc;
    [| destruct (dladdr_fname P (default 0 (cs !! S j))) as [f |]].
  - destruct (negb (String.eqb f "")); [done | by apply IH].
  - assert (<[default 0 (cs !! S j):=f]> oc !! a = Some v) as H'.
    { rewrite lookup_insert_ne; [done |]. intros Ha. rewrite Ha in Hc. congruence. }
    destruct (negb (String.eqb f "")); [done | by apply IH].
  - destruct (negb (String.eqb objfile "")); [done | by apply IH].
Qed.

Lemma is_valid_keeps P oc d cs b a v :
  oc !! a = Some v -> (log_is_valid_callstack P oc d cs b).1.2 !! a = Some v.
Proof.
  intros H. unfold log_is_valid_callstack.
  pose proof (valid_walk_keeps P cs (Z.to_nat (d - 1)) "" oc [] a v H) as Hw.
  destruct (valid_walk _ _ _ _ _ _) as [[o oc'] qs].
  by destruct (_ && _ && _).
Qed.

Lemma print_frames_keeps P d cs n : forall i sc trace a v,
  sc !! a = Some v -> (print_frames P d cs i n sc trace).2 !! a = Some v.
Proof.
  induction n as [| n IH]; intros i sc trace a v H; cbn [print_frames]; [done |].
  pose proof (addr_to_symbol_keeps P sc (default 0 (cs !! i)) a v H) as Hk.
  destruct (addr_to_symbol P sc (default 0 (cs !! i))) as [[sym sc1] q].
  by apply IH.
Qed.

Lemma print_callstack_keeps P sc d cs a v :
  sc !! a = Some v -> (log_print_callstack P sc d cs).1.2 !! a = Some v.
Proof.
  intros H. unfold log_print_callstack. destruct (0 <? d); [| done].
  pose proof (print_frames_keeps P d cs (Z.to_nat d - 1) 1 sc [] a v H) as Hk.
  by destruct (print_frames _ _ _ _ _ _ _).
Qed.

Lemma leaks_loop_keeps P m l : forall oc sc out acc,
  (forall a v, oc !! a = Some v -> (leaks_loop P m l oc sc out acc).1.1.2 !! a = Some v) /\
  (forall a v, sc !! a = Some v -> (leaks_loop P m l oc sc out acc).1.2 !! a = Some v) /\
  exists o, (leaks_loop P m l oc sc out acc).2 = out ++ o.
Proof.
  induction l as [| it l IH]; intros oc sc out acc; cbn [leaks_loop].
  { split; [done | split; [done | exists []; by rewrite app_nil_r]]. }
  destruct (m <=? size it); [| split; [done | split; [done | exists []; by rewrite app_nil_r]]].
  pose proof (is_valid_keeps P oc (callstack_depth it) (callstack it) true) as Hv.
  destruct (log_is_valid_callstack _ _ _ _ _) as [[valid oc1] q]. cbn in Hv.
  destruct valid.
  - pose proof (print_callstack_keeps P sc (callstack_depth it) (callstack it)) as Hp.
    destruct (log_print_callstack _ _ _ _) as [[tr sc1] txt]. cbn in Hp.
    destruct (IH oc1 sc1 (out ++ txt) (acc ++ [mk_leak (size it) (count it) tr]))
      as (H1 & H2 & o & Ho).
    split; [naive_solver | split; [naive_solver |]].
    exists (txt ++ o). by rewrite Ho, app_assoc.
  - destruct (IH oc1 sc out acc) as (H1 & H2 & H3). naive_solver.
Qed.

(** X7: [log_summary] never drops or changes a cached name: every entry of
    the symbol cache and of the object-file cache before the summary is
    still there, with the same value, after it, whatever the leak loop
    resolved and validated in between. *)
Theorem log_summary_caches_grow (P : platform) (st : hu_state) :
  (forall a v, symbol_cache st !! a = Some v -> symbol_cache (log_summary P st) !! a = Some v) /\
  (forall a v, objfile_cache st !! a = Some v -> objfile_cache (log_summary P st) !! a = Some v).
Proof.
  unfold log_summary.
  destruct (hu_log_file (cfg st)) as [path |]; [| done].
  destruct (negb (fopen_ok P path)); [done |].
  destruct (group_allocations _ _ _ _) as [[g tb] tbl].
  destruct (leaks_loop_keeps P (hu_log_minleak (cfg st)) (rev (allocations_by_size g))
              (objfile_cache st) (symbol_cache st) [] []) as (H1 & H2 & _).
  destruct (leaks_loop _ _ _ _ _ _ _) as [[[lk oc] sc] txt]. cbn in *.
  split; [exact H2 | exact H1].
Qed.

(** ** Order of the leak entries *)

Lemma sorted_filter {A} (R : relation A) (f : A -> Prop) `{!∀ x, Decision (f x)} l :
  StronglySorted R l -> StronglySorted R (filter f l).
Proof.
  induction 1 as [| x l Hs IH Hf]; [constructor |].
  destruct (decide (f x)).
  - rewrite filter_cons_True by done. constructor; [done |].
    rewrite Forall_forall in Hf |- *. intros y Hy.
    apply list_elem_of_filter in Hy as [_ Hy]. by apply Hf.
  - by rewrite filter_cons_False.
Qed.

Lemma sorted_sizes l :
  StronglySorted size_ge l -> StronglySorted (fun x y => y <= x) (map size l).
Proof.
  induction 1 as [| x l Hs IH Hf]; simpl; constructor; [done |].
  apply Forall_map. eapply Forall_impl; [exact Hf |]. by unfold size_ge.
Qed.

(** X8: when the output file opens, the leak entries of the report are in
    order of non-increasing lost bytes: [log_summary] walks its size-ordered
    multiset from the largest group down. *)
Theorem summary_leaks_descending (P : platform) (st : hu_state) path :
  hu_log_file (cfg st) = Some path -> fopen_ok P path = true ->
  exists txt rep,
    out_file (log_summary P st) = out_file st ++ txt ++ [OutJson rep] /\
    StronglySorted (fun x y => y <= x) (map leak_bytes (leaks rep)).
Proof.
  intros Hf Ho.
  pose proof (log_summary_eq P st path Hf Ho) as H. cbv zeta in H.
  destruct H as [Hg Hout].
  eexists _, _. split; [exact Hout |]. cbn [leaks].
  destruct (allocations_by_size_spec
              (allocations_by_callstack (log_summary P st))) as [Hs _].
  rewrite Hg in Hs.
  set (l := rev (allocations_by_size _)).
  assert (StronglySorted size_ge l) as Hl by (by apply sorted_rev).
  pose proof (leaks_loop_proj P (hu_log_minleak (cfg st)) l
                (objfile_cache st) (symbol_cache st) [] [] Hl) as Hp.
  apply (f_equal (map fst)) in Hp. rewrite !map_map in Hp. cbn in Hp.
  rewrite (Hp : map leak_bytes _ = _), map_map.
  apply sorted_sizes, sorted_filter, Hl.
Qed.

Lemma summary_leaks_descending_witness :
  exists txt rep,
    out_file (log_summary demo_platform unsorted_groups_state) =
      out_file unsorted_groups_state ++ txt ++ [OutJson rep] /\
    StronglySorted (fun x y => y <= x) (map leak_bytes (leaks rep)) /\
    map leak_bytes (leaks rep) = [300; 50; 5].
Proof.
  destruct (summary_leaks_descending demo_platform unsorted_groups_state "out.json"%string
              ltac:(vm_compute; reflexivity) ltac:(vm_compute; reflexivity))
    as (txt & rep & Ho & Hs).
  exists txt, rep. split; [exact Ho | split; [exact Hs |]].
  assert (last (out_file (log_summary demo_platform unsorted_groups_state)) = Some (OutJson rep))
    as Hl by (rewrite Ho, app_assoc, last_snoc; reflexivity).
  change (map leak_bytes (leaks rep)) with
    (match Some (OutJson rep) with Some (OutJson r) => map leak_bytes (leaks r) | _ => [] end).
  rewrite <- Hl. vm_compute. reflexivity.
Defined.

(** ** Memoisation in [addr_to_symbol] *)

(** X9: whatever [addr_to_symbol] answers for an address, the returned cache
    maps the address to that answer, and a second call with the returned
    cache gives the same answer, the same cache and no [dladdr] query.
    Earlier cache entries are never dropped or overwritten, and [dladdr] is
    queried (once, for that address) only on a cache miss, which then adds
    exactly that one entry. *)
Theorem addr_to_symbol_memo (P : platform) (sc : gmap Z string) (a : Z) s sc' qs :
  addr_to_symbol P sc a = (s, sc', qs) ->
  sc' !! a = Some s /\
  addr_to_symbol P sc' a = (s, sc', []) /\
  (forall b v, sc !! b = Some v -> sc' !! b = Some v) /\
  ((qs = [] /\ sc' = sc /\ sc !! a = Some s) \/
   (qs = [a] /\ sc !! a = None /\ sc' = <[a:=s]> sc)).
Proof.
  unfold addr_to_symbol at 1. destruct (sc !! a) as [w |] eqn:Hc; intros H.
  - injection H as <- <- <-.
    split; [done | split; [unfold addr_to_symbol; by rewrite Hc | split; [done |]]].
    by left.
  - injection H as Hs <- <-.
    assert (<[a:=s]> sc !! a = Some s) as Ha by (rewrite <- Hs; apply lookup_insert_eq).
    rewrite Hs. split; [done | split; [unfold addr_to_symbol; by rewrite Ha | split]].
    + intros b v Hb. rewrite lookup_insert_ne; [done |]. intros ->. congruence.
    + by right.
Qed.

Lemma addr_to_symbol_memo_witness :
  addr_to_symbol demo_platform
    (<[8:="foo():3"%string]> ∅) 8 = ("foo():3"%string, <[8:="foo():3"%string]> ∅, []).
Proof.
  assert (addr_to_symbol demo_platform ∅ 8 =
          ("foo():3"%string, <[8:="foo():3"%string]> ∅, [8])) as E
    by (vm_compute; reflexivity).
  exact (proj1 (proj2 (addr_to_symbol_memo demo_platform ∅ 8 _ _ _ E))).
Defined.

(** ** [HU_NOSYMS] *)

Lemma body_nosyms P ev p s stack st b :
  log_event_body P ev p s stack (set_nosyms b st) =
  set_nosyms b <$> log_event_body P ev p s stack st.
Proof.
  destruct st as [[f fr ns ml pd] le cc ct al sc oc g out].
  destruct ev; unfold log_event_body; simpl; [done |].
  destruct (al !! p); simpl; [done |].
  destruct fr; simpl; [| done].
  destruct (log_is_valid_callstack P oc _ _ false) as [[[] oc'] qs]; simpl; [| done].
  destruct f as [path |]; simpl; [| done].
  by destruct (fopen_ok P path).
Qed.

Lemma log_event_nosyms P c st b :
  log_event P c (set_nosyms b st) = set_nosyms b <$> log_event P c st.
Proof.
  destruct c as [ev p s stack nested].
  destruct (decide (logging_enabled st = 0)) as [He | He].
  - rewrite !log_event_unfold. cbn [set_nosyms logging_enabled]. by rewrite He.
  - destruct (decide (callcount st = 0)) as [Hc | Hc].
    + rewrite !log_event_top by done. apply body_nosyms.
    + by rewrite !log_event_nested.
Qed.

(** X10: the [HU_NOSYMS] setting that [log_init] reads has no effect: running
    any sequence of events, or [log_summary], from two states that differ only
    in that setting gives states that again differ only in that setting (and
    both runs fail together). *)
Theorem nosyms_no_effect (P : platform) (b : bool) (cs : list hu_call) (st : hu_state) :
  log_events P cs (set_nosyms b st) = set_nosyms b <$> log_events P cs st /\
  log_summary P (set_nosyms b st) = set_nosyms b (log_summary P st).
Proof.
  split.
  - revert st. induction cs as [| c cs IH]; intros st; [done |].
    cbn [log_events]. rewrite log_event_nosyms.
    destruct (log_event P c st) as [st1 |]; simpl; [apply IH | done].
  - destruct st as [[f fr ns ml pd] le cc ct al sc oc g out].
    unfold log_summary. cbn [set_nosyms cfg hu_log_file].
    destruct f as [path |]; [| done].
    destruct (negb (fopen_ok P path)); [done |].
    cbn [allocations_by_callstack allocations objfile_cache symbol_cache hu_log_minleak ctr pid
         logging_enabled callcount out_file].
    destruct (group_allocations _ _ _ _) as [[g' tb] tbl].
    by destruct (leaks_loop _ _ _ _ _ _ _) as [[[lk oc'] sc'] txt].
Qed.

(** ** A second [log_summary] *)

Lemma log_summary_cfg_allocations P st :
  cfg (log_summary P st) = cfg st /\ allocations (log_summary P st) = allocations st.
Proof.
  unfold log_summary. destruct (hu_log_file (cfg st)) as [path |]; [| done].
  destruct (negb (fopen_ok P path)); [done |].
  destruct (group_allocations _ _ _ _) as [[g tb] tbl].
  by destruct (leaks_loop _ _ _ _ _ _ _) as [[[lk oc] sc] txt].
Qed.

(** X11: [allocations_by_callstack] is a [static] map that is never cleared,
    so a second [log_summary] over the same live table adds every record to
    its group again: starting from an empty group map and records of count
    1, after two summaries the entry of a call stack [k] is absent exactly
    when no live record was captured at [k], and otherwise has twice the
    number of those records as its count and twice the sum of their sizes
    as its size. *)
Theorem second_summary_doubles (P : platform) (st : hu_state) path (k : list Z) :
  hu_log_file (cfg st) = Some path -> fopen_ok P path = true ->
  allocations_by_callstack st = ∅ ->
  (forall p a, allocations st !! p = Some a -> count a = 1) ->
  let recs := filter (fun a => key_of a = k) (table_records (allocations st)) in
  match allocations_by_callstack (log_summary P (log_summary P st)) !! k with
  | None => recs = []
  | Some r => count r = 2 * Z.of_nat (length recs) /\ size r = 2 * sum_Z (map size recs)
  end.
Proof.
  intros Hf Ho Hg0 Hcnt recs.
  destruct (log_summary_cfg_allocations P st) as [Hcfg Hal].
  pose proof (log_summary_eq P st path Hf Ho) as H1. cbv zeta in H1.
  destruct H1 as [Hg1 _].
  assert (hu_log_file (cfg (log_summary P st)) = Some path) as Hf2 by (by rewrite Hcfg).
  pose proof (log_summary_eq P (log_summary P st) path Hf2 Ho) as H2. cbv zeta in H2.
  destruct H2 as [Hg2 _].
  rewrite Hg2, Hal, Hg1, Hg0, group_fold, group_fold, lookup_empty.
  assert (filter (fun a => key_of a = k) (map snd (map_in_order (allocations st))) ≡ₚ recs)
    as Hperm.
  { unfold recs, table_records. apply filter_Permutation.
    apply Permutation_map, map_in_order_perm. }
  destruct (filter (fun a => key_of a = k) (map snd (map_in_order (allocations st))))
    as [| a0 fl] eqn:Hfl.
  - by apply Permutation_nil.
  - assert (a0 ∈ recs) as Ha0 by (rewrite <- Hperm; constructor).
    assert (count a0 = 1) as Hc.
    { unfold recs in Ha0. apply list_elem_of_filter in Ha0 as [_ Hin].
      destruct (table_records_elem _ _ Hin) as [p Hp]. by apply (Hcnt p). }
    rewrite <- (Permutation_length Hperm), <- (sum_Z_perm _ _ (Permutation_map size Hperm)).
    unfold bump. cbn [count size length]. rewrite map_cons, sum_Z_cons, Hc.
    split; lia.
Qed.

Lemma second_summary_doubles_witness :
  match allocations_by_callstack
          (log_summary demo_platform (log_summary demo_platform c4_state)) !! [1; 2; 3] with
  | None => False
  | Some r => count r = 4 /\ size r = 600
  end.
Proof.
  assert (map_Forall (fun _ a => count a = 1) (allocations c4_state)) as HF
    by (apply (bool_decide_unpack _); vm_compute; reflexivity).
  pose proof (second_summary_doubles demo_platform c4_state "out.json"%string [1; 2; 3]
                ltac:(vm_compute; reflexivity) ltac:(vm_compute; reflexivity)
                ltac:(vm_compute; reflexivity)
                (fun p a H => map_Forall_lookup_1 _ _ p a HF H)) as H.
  cbv zeta in H. revert H.
  destruct (allocations_by_callstack
              (log_summary demo_platform (log_summary demo_platform c4_state)) !! [1; 2; 3])
    as [r |]; intros H.
  - destruct H as [Hc Hs]. rewrite Hc, Hs. vm_compute. split; reflexivity.
  - vm_compute in H. discriminate.
Defined.

(** ** What the event path writes *)

Lemma body_output P ev p s stack st st' :
  log_event_body P ev p s stack st = Some st' ->
  cfg st' = cfg st /\ symbol_cache st' = symbol_cache st /\
  (hu_log_free (cfg st) = false -> objfile_cache st' = objfile_cache st) /\
  (out_file st' = out_file st \/
   (hu_log_free (cfg st) = true /\ out_file st' = out_file st ++ invalid_dealloc_text)).
Proof.
  destruct st as [c le cc ct al sc oc g out].
  destruct ev; unfold log_event_body; cbn [cfg allocations objfile_cache ctr].
  { intros [= <-]. cbn. split; [done | split; [done | split; [done | by left]]]. }
  destruct (al !! p); cbn [mbind option_bind].
  { intros [= <-]. cbn. split; [done | split; [done | split; [done | by left]]]. }
  destruct (hu_log_free c) eqn:Hfr.
  2: { intros [= <-]. cbn. split; [done | split; [done | split; [done | by left]]]. }
  destruct (log_is_valid_callstack P oc _ _ false) as [[[] oc'] qs].
  2: { intros [= <-]. cbn. split; [done | split; [done | split; [congruence | by left]]]. }
  destruct (hu_log_file c) as [path |]; [| done].
  destruct (fopen_ok P path); intros [= <-]; cbn.
  - split; [done | split; [done | split; [congruence | by right]]].
  - split; [done | split; [done | split; [congruence | by left]]].
Qed.

(** X12: the event path never resolves symbols and writes nothing but
    invalid-deallocation notes: after any run of events the configuration
    and the symbol cache are unchanged and the output file is the old one
    followed by some number of copies of the note
    [" Invalid deallocation at:"] and an empty line. With invalid-free
    tracking off that number is zero and the object-file cache is unchanged
    too. *)
Theorem log_events_output (P : platform) (cs : list hu_call) (st st' : hu_state) :
  log_events P cs st = Some st' ->
  cfg st' = cfg st /\ symbol_cache st' = symbol_cache st /\
  exists n, out_file st' = out_file st ++ concat (replicate n invalid_dealloc_text) /\
    (hu_log_free (cfg st) = false -> n = 0%nat /\ objfile_cache st' = objfile_cache st).
Proof.
  apply (log_events_ind (fun st2 =>
    cfg st2 = cfg st /\ symbol_cache st2 = symbol_cache st /\
    exists n, out_file st2 = out_file st ++ concat (replicate n invalid_dealloc_text) /\
      (hu_log_free (cfg st) = false -> n = 0%nat /\ objfile_cache st2 = objfile_cache st))).
  - intros ev p s stack st1 st2 Hb (Hc & Hs & n & Ho & Hn).
    destruct (body_output P ev p s stack st1 st2 Hb) as (Hc2 & Hs2 & Hoc & [Ho2 | [Hfr Ho2]]).
    + split; [congruence | split; [congruence |]].
      exists n. split; [congruence |].
      intros Hf. destruct (Hn Hf) as [-> Hoc1]. split; [done |].
      rewrite Hoc; [done |]. congruence.
    + split; [congruence | split; [congruence |]].
      exists (S n). rewrite Ho2, Ho, replicate_S_end, concat_app. cbn [concat].
      split; [by rewrite app_nil_r, <- app_assoc |].
      intros Hf. rewrite Hc in Hfr. congruence.
  - split; [done | split; [done |]]. exists 0%nat. by rewrite app_nil_r.
Qed.

Lemma log_events_output_witness :
  exists st', log_events demo_platform c1_events (start_state demo_platform demo_env) = Some st' /\
    symbol_cache st' = symbol_cache (start_state demo_platform demo_env).
Proof.
  destruct (log_events demo_platform c1_events (start_state demo_platform demo_env))
    as [st' |] eqn:Hr; [| vm_compute in Hr; discriminate].
  exists st'. split; [done |].
  exact (proj1 (proj2 (log_events_output demo_platform c1_events _ st' Hr))).
Defined.

(** ** The text of the summary *)

Lemma print_callstack_shape P sc d cs :
  ((log_print_callstack P sc d cs).1.1 = None /\
   (log_print_callstack P sc d cs).2 =
     [OutText ("    error: backtrace() returned empty callstack" ++ nl)%string]) \/
  (exists t, (log_print_callstack P sc d cs).1.1 = Some t /\
             (log_print_callstack P sc d cs).2 = []).
Proof.
  unfold log_print_callstack. destruct (0 <? d); [| by left].
  destruct (print_frames _ _ _ _ _ _ _) as [t sc']. right. by exists t.
Qed.

Lemma leaks_loop_text P m l : forall oc sc out acc,
  exists n,
    (leaks_loop P m l oc sc out acc).2 =
      out ++ replicate n (OutText ("    error: backtrace() returned empty callstack" ++ nl)%string) /\
    length (filter (fun o => leak_trace o = None) (leaks_loop P m l oc sc out acc).1.1.1) =
      (length (filter (fun o => leak_trace o = None) acc) + n)%nat.
Proof.
  induction l as [| it l IH]; intros oc sc out acc; cbn [leaks_loop].
  { exists 0%nat. rewrite app_nil_r. split; [done | cbn; lia]. }
  destruct (m <=? size it); [| exists 0%nat; rewrite app_nil_r; split; [done | cbn; lia]].
  destruct (log_is_valid_callstack _ _ _ _ _) as [[valid oc1] q].
  destruct valid; [| apply IH].
  pose proof (print_callstack_shape P sc (callstack_depth it) (callstack it)) as Hs.
  destruct (log_print_callstack _ _ _ _) as [[tr sc1] txt]. cbn in Hs.
  destruct (IH oc1 sc1 (out ++ txt) (acc ++ [mk_leak (size it) (count it) tr]))
    as (n & Ho & Hn).
  rewrite Ho, Hn, filter_app, length_app.
  destruct Hs as [[-> ->] | (t & -> & ->)].
  - exists (S n). rewrite <- app_assoc. split; [done |].
    rewrite filter_cons_True by done. cbn. lia.
  - exists n. rewrite app_nil_r. split; [done |].
    rewrite filter_cons_False by done. cbn. lia.
Qed.

(** X14: when the output file opens, the text [log_summary] writes before
    its JSON report is only the line
    ["    error: backtrace() returned empty callstack"], once for each leak
    entry of the report that has no ["trace"]. *)
Theorem summary_text (P : platform) (st : hu_state) path :
  hu_log_file (cfg st) = Some path -> fopen_ok P path = true ->
  exists n rep,
    out_file (log_summary P st) =
      out_file st ++
      replicate n (OutText ("    error: backtrace() returned empty callstack" ++ nl)%string) ++
      [OutJson rep] /\
    length (filter (fun o => leak_trace o = None) (leaks rep)) = n.
Proof.
  intros Hf Ho.
  pose proof (log_summary_eq P st path Hf Ho) as H. cbv zeta in H.
  destruct H as [_ Hout].
  match type of Hout with
  | context [leaks_loop P ?m ?l ?oc ?sc [] []] =>
      destruct (leaks_loop_text P m l oc sc [] []) as (n & Ht & Hn)
  end.
  rewrite Ht in Hout. exists n. eexists. split; [exact Hout |]. exact Hn.
Qed.

Lemma summary_text_witness :
  exists rep,
    out_file (log_summary demo_platform empty_stack_state) =
      out_file empty_stack_state ++
      replicate 1 (OutText ("    error: backtrace() returned empty callstack" ++ nl)%string) ++
      [OutJson rep] /\
    length (filter (fun o => leak_trace o = None) (leaks rep)) = 1%nat.
Proof.
  destruct (summary_text demo_platform empty_stack_state "out.json"%string
              ltac:(vm_compute; reflexivity) ltac:(vm_compute; reflexivity))
    as (n & rep & Ho & Hn).
  assert (n = 1%nat) as ->.
  { pose proof (f_equal length Ho) as Hlen. rewrite !length_app, length_replicate in Hlen.
    assert (length (out_file (log_summary demo_platform empty_stack_state)) = 2%nat) as E1
      by (vm_compute; reflexivity).
    assert (length (out_file empty_stack_state) = 0%nat) as E2 by (vm_compute; reflexivity).
    rewrite E1, E2 in Hlen. cbn in Hlen. lia. }
  exists rep. split; [exact Ho | exact Hn].
Defined.

(** ** The reentrancy counter and the enable flag over a run *)

(** X15: a run of events never changes the enable flag and always gives the
    reentrancy counter back: after any completed run, [logging_enabled] and
    [callcount] have their values from before the run, whatever allocator
    calls the bookkeeping made. *)
Theorem log_events_release (P : platform) (cs : list hu_call) (st st' : hu_state) :
  log_events P cs st = Some st' ->
  callcount st' = callcount st /\ logging_enabled st' = logging_enabled st.
Proof.
  apply (log_events_ind (fun st2 =>
    callcount st2 = callcount st /\ logging_enabled st2 = logging_enabled st)); [| done].
  intros ev p s stack st1 st2 Hb [Hc He].
  destruct (log_event_body_keeps P ev p s stack st1 st2 Hb) as (Hc2 & He2 & _).
  split; congruence.
Qed.

Lemma log_events_release_witness :
  exists st', log_events demo_platform c1_events (start_state demo_platform demo_env) = Some st' /\
    callcount st' = 0.
Proof.
  destruct (log_events demo_platform c1_events (start_state demo_platform demo_env))
    as [st' |] eqn:Hr; [| vm_compute in Hr; discriminate].
  exists st'. split; [done |].
  rewrite (proj1 (log_events_release demo_platform c1_events _ st' Hr)).
  reflexivity.
Defined.
